(** * Node splitting by leaf switch: a shallow embedding

    The development follows [node_allocation/parsers.py],
    [node_allocation/strategies.py] and the orchestration in
    [split_nodes_by_leaf.py].  Python values are modelled as follows:

    - [int] is [Z]; [len] returns a [Z];
    - [str] is [string], read as a sequence of ASCII bytes, ordered
      lexicographically byte by byte (which is Python's code point order on
      ASCII text);
    - a [list] is a [list]; slices follow Python's rules for negative and
      out-of-range bounds;
    - a [dict] that is iterated ([switch_to_nodes]) is an association list in
      insertion order; a [dict] that is only looked up ([node_to_switch],
      the [parents] table) is a [gmap];
    - a [set] is a [gset]; the order in which a run of the interpreter
      enumerates a set is a parameter ([set_iter]) of the code that iterates
      over one;
    - an exception is an [Error] result. *)

From Stdlib Require Import ZArith Lia Ascii.
From stdpp Require Import gmap strings list sorting pretty.

Local Open Scope Z_scope.

(** ** Python lists *)

Module Py.

Definition len {A} (l : list A) : Z := Z.of_nat (length l).

(** A slice bound [i] of a sequence of length [n], as an offset in
    [0 .. n]: a negative bound counts from the end, and every bound is
    clamped to the sequence. *)
Definition clamp (n : nat) (i : Z) : nat :=
  if i <? 0 then Z.to_nat (Z.of_nat n + i)
  else Nat.min (Z.to_nat i) n.

(** [l[i:j]] *)
Definition slice {A} (i j : Z) (l : list A) : list A :=
  let lo := clamp (length l) i in
  let hi := clamp (length l) j in
  take (hi - lo) (drop lo l).

(** [l[:j]] *)
Definition slice_to {A} (j : Z) (l : list A) : list A :=
  take (clamp (length l) j) l.

(** [l[i:]] *)
Definition slice_from {A} (i : Z) (l : list A) : list A :=
  drop (clamp (length l) i) l.

(** [range(start, stop)] *)
Definition range (start stop : Z) : list Z :=
  (fun k : nat => start + Z.of_nat k) <$> seq 0 (Z.to_nat (stop - start)).

(** [sorted(l)] and [l.sort(key=...)]: the sort is stable, so its result is
    the one of a stable insertion sort.  [insert_sorted le x l] puts [x]
    in front of the first element that is not below it: [x] stood before
    the elements of [l] in the input and stays before its equals. *)
Fixpoint insert_sorted {A} (le : A -> A -> bool) (x : A) (l : list A) : list A :=
  match l with
  | [] => [x]
  | y :: l' => if le x y then x :: y :: l' else y :: insert_sorted le x l'
  end.

Definition sorted_by {A} (le : A -> A -> bool) (l : list A) : list A :=
  foldr (insert_sorted le) [] l.

(** [sorted] on a list of strings *)
Definition sorted (l : list string) : list string :=
  sorted_by String.leb l.

(** [l.sort(key=key)] for an integer key *)
Definition sorted_by_key {A} (key : A -> Z) (l : list A) : list A :=
  sorted_by (fun x y => key x <=? key y) l.

End Py.

(** ** Exceptions *)

Inductive py_error : Type :=
  | ValueError
  | IndexError
  | ZeroDivisionError
  | SystemExit (code : Z).

Inductive result (A : Type) : Type :=
  | Ok (x : A)
  | Error (e : py_error).

Arguments Ok {A} x.
Arguments Error {A} e.

Definition bind {A B} (r : result A) (k : A -> result B) : result B :=
  match r with
  | Ok x => k x
  | Error e => Error e
  end.

Notation "x <- r ;; k" := (bind r (fun x => k))
  (at level 100, r at next level, right associativity).

(** [l[i]] for a non-negative literal index *)
Definition index {A} (l : list A) (i : nat) : result A :=
  match l !! i with
  | Some x => Ok x
  | None => Error IndexError
  end.

(** ** Python strings *)

Module Str.

(** [str.isspace] on an ASCII character *)
Definition is_space (c : ascii) : bool :=
  let n := nat_of_ascii c in
  ((9 <=? n) && (n <=? 13) || (28 <=? n) && (n <=? 32))%nat.

(** [c in s] for a one-character [c] *)
Fixpoint contains (c : ascii) (s : string) : bool :=
  match s with
  | EmptyString => false
  | String x r => bool_decide (x = c) || contains c r
  end.

(** [bool(s)] *)
Definition truthy (s : string) : bool :=
  match s with
  | EmptyString => false
  | String _ _ => true
  end.

(** [x] in front of the first piece of a split *)
Definition cons_head (x : ascii) (pieces : list string) : list string :=
  match pieces with
  | [] => [String x EmptyString]
  | h :: t => String x h :: t
  end.

(** [s.split(c)] for a one-character separator *)
Fixpoint split_char (c : ascii) (s : string) : list string :=
  match s with
  | EmptyString => [EmptyString]
  | String x r =>
      if bool_decide (x = c) then EmptyString :: split_char c r
      else cons_head x (split_char c r)
  end.

(** [s.split(sep)] for a separator of one character or more, scanning from
    the left; [skip] counts the characters of a separator just matched
    that are still to be passed over. *)
Fixpoint split_str_from (sep : string) (skip : nat) (s : string) : list string :=
  match s with
  | EmptyString => [EmptyString]
  | String x r =>
      match skip with
      | S k => split_str_from sep k r
      | O =>
          if String.prefix sep s
          then EmptyString :: split_str_from sep (String.length sep - 1) r
          else cons_head x (split_str_from sep 0 r)
      end
  end.

Definition split_str (sep s : string) : list string :=
  split_str_from sep 0 s.

(** [s.split()]: the maximal runs of non-space characters *)
Fixpoint split_ws (s : string) : list string :=
  match s with
  | EmptyString => []
  | String x r =>
      if is_space x then split_ws r
      else
        match r with
        | EmptyString => [String x EmptyString]
        | String y _ =>
            if is_space y then String x EmptyString :: split_ws r
            else cons_head x (split_ws r)
        end
  end.

Fixpoint lstrip (s : string) : string :=
  match s with
  | EmptyString => EmptyString
  | String x r => if is_space x then lstrip r else s
  end.

(** [s.strip()] *)
Definition strip (s : string) : string :=
  String.rev (lstrip (String.rev (lstrip s))).

(** The digits of a decimal literal: one digit or more, with single
    underscores allowed between digits. [seen] tells whether the previous
    character was a digit. *)
Fixpoint digits (acc : Z) (seen : bool) (s : string) : option Z :=
  match s with
  | EmptyString => if seen then Some acc else None
  | String x r =>
      match Ascii.is_nat x with
      | Some d => digits (10 * acc + Z.of_nat d) true r
      | None =>
          if bool_decide (x = "_"%char) && seen then digits acc false r
          else None
      end
  end.

(** A decimal literal with an optional sign. *)
Definition signed_digits (s : string) : option Z :=
  match s with
  | String "+" r => digits 0 false r
  | String "-" r => Z.opp <$> digits 0 false r
  | _ => digits 0 false s
  end.

Definition is_digit (c : ascii) : bool :=
  match Ascii.is_nat c with
  | Some _ => true
  | None => false
  end.

(** The number of digits in [s]. *)
Fixpoint digit_count (s : string) : Z :=
  match s with
  | EmptyString => 0
  | String x r => (if is_digit x then 1 else 0) + digit_count r
  end.

(** The most digits of a decimal literal that [int] converts: the value of
    [sys.get_int_max_str_digits()] that CPython starts with. *)
Definition int_max_str_digits : Z := 4300.

(** [int(s)] on ASCII text: surrounding white space, an optional sign and
    a decimal literal of at most [int_max_str_digits] digits; anything else
    raises [ValueError]. *)
Definition int (s : string) : result Z :=
  match signed_digits (strip s) with
  | Some n =>
      if int_max_str_digits <? digit_count (strip s) then Error ValueError
      else Ok n
  | None => Error ValueError
  end.

Definition zeros (n : Z) : string :=
  String.string_of_list_ascii (replicate (Z.to_nat n) "0"%char).

(** [f"{num:0{padding}d}"]: decimal, zero-filled after the sign to the
    width [padding]. *)
Definition format_d (num padding : Z) : string :=
  let ds := pretty (Z.abs_N num) in
  let k := Z.of_nat (String.length ds) in
  if num <? 0 then "-" +:+ zeros (padding - 1 - k) +:+ ds
  else zeros (padding - k) +:+ ds.

(** [s] without the prefix [p], when it starts with [p]. *)
Fixpoint skip_prefix (p s : string) : option string :=
  match p with
  | EmptyString => Some s
  | String x p' =>
      match s with
      | EmptyString => None
      | String y s' => if bool_decide (x = y) then skip_prefix p' s' else None
      end
  end.

(** [sub in s] *)
Fixpoint contains_str (sub s : string) : bool :=
  match skip_prefix sub s with
  | Some _ => true
  | None =>
      match s with
      | EmptyString => false
      | String _ r => contains_str sub r
      end
  end.

(** The longest prefix of [s] whose characters satisfy [f], and what
    follows it. *)
Fixpoint span (f : ascii -> bool) (s : string) : string * string :=
  match s with
  | EmptyString => (EmptyString, EmptyString)
  | String x r =>
      if f x then (String x (span f r).1, (span f r).2)
      else (EmptyString, s)
  end.

(** [sep.join(l)] *)
Fixpoint join (sep : string) (l : list string) : string :=
  match l with
  | [] => EmptyString
  | [x] => x
  | x :: rest => x +:+ sep +:+ join sep rest
  end.

End Str.

(** ** Insertion-ordered dictionaries with string keys *)

Definition odict (V : Type) : Type := list (string * V).

Module Dict.

Definition keys {V} (d : odict V) : list string := fst <$> d.
Definition values {V} (d : odict V) : list V := snd <$> d.

Fixpoint get {V} (d : odict V) (k : string) : option V :=
  match d with
  | [] => None
  | (k', v) :: rest => if decide (k' = k) then Some v else get rest k
  end.

(** [d[k]] for a key [k] taken from [d.keys()]; such a lookup cannot
    raise, and the default is never used. *)
Definition at_key {V} (d : odict (list V)) (k : string) : list V :=
  default [] (get d k).

(** [d.setdefault(k, []).append(x)] *)
Fixpoint setdefault_append {V} (d : odict (list V)) (k : string) (x : V)
  : odict (list V) :=
  match d with
  | [] => [(k, [x])]
  | (k', v) :: rest =>
      if decide (k' = k) then (k', v ++ [x]) :: rest
      else (k', v) :: setdefault_append rest k x
  end.

(** A well-formed dictionary holds each key once. *)
Definition wf {V} (d : odict V) : Prop := NoDup (keys d).

(** All the nodes of a switch grouping, group after group. *)
Definition all_values {V} (d : odict (list V)) : list V := concat (values d).

End Dict.

(** ** [node_allocation/parsers.py] *)

(** The body of the loop of [expand_nodes]: the node names that one
    comma-separated specification stands for. *)
Definition expand_spec (spec : string) : result (list string) :=
  if Str.contains "[" spec && Str.contains "]" spec then
    prefix <- index (Str.split_char "[" spec) 0 ;;
    bracketed <- index (Str.split_char "[" spec) 1 ;;
    range_part <- index (Str.split_char "]" bracketed) 0 ;;
    if Str.contains "-" range_part then
      match Str.split_char "-" range_part with
      | [start_str; end_str] =>
          start <- Str.int start_str ;;
          end_ <- Str.int end_str ;;
          let padding := Z.of_nat (String.length start_str) in
          Ok ((fun num => prefix +:+ Str.format_d num padding)
                <$> Py.range start (end_ + 1))
      | _ => Error ValueError
      end
    else
      num <- Str.int range_part ;;
      let padding := Z.of_nat (String.length range_part) in
      Ok [prefix +:+ Str.format_d num padding]
  else Ok [spec].

Fixpoint expand_specs (specs : list string) (expanded : list string)
  : result (list string) :=
  match specs with
  | [] => Ok expanded
  | spec :: rest =>
      names <- expand_spec spec ;;
      expand_specs rest (expanded ++ names)
  end.

(** [raw_string.split("Nodes=")[1].split()[0]] *)
Definition nodes_part (raw_string : string) : result string :=
  after <- index (Str.split_str "Nodes=" raw_string) 1 ;;
  index (Str.split_ws after) 0.

Definition expand_nodes (raw_string : string) : result (list string) :=
  part <- nodes_part raw_string ;;
  expand_specs (Str.split_char "," part) [].

(** The switch hierarchy is a dictionary with the keys ['parents'] and
    ['children']; a key may be absent from a hierarchy built elsewhere.
    [parse_topology_file] stores under ['parents'] the text that follows
    [Switches=], as it stands. *)
Record switch_hierarchy : Type := {
  hier_parents : option (gmap string string);
  hier_children : option (gmap string (list string))
}.

(** [parse_topology_file], lines 88 to 95: what a leaf switch line records
    from the text [parents_text] matched after [Switches=]. *)
Definition record_leaf_parents (current_switch parents_text : string)
    (tables : gmap string string * gmap string (list string))
  : gmap string string * gmap string (list string) :=
  let parents := Str.strip parents_text in
  (<[current_switch := parents]> tables.1,
   foldl (fun children parent =>
            <[parent := default [] (children !! parent) ++ [current_switch]]> children)
         tables.2 (Str.split_char "," parents)).

(** [parse_allocated_nodes] on the text of the file:
    [f.read().strip().split()]. *)
Definition parse_allocated_nodes (content : string) : list string :=
  Str.split_ws (Str.strip content).

(** The pattern [SwitchName=([^\s]+) Level=(\d+)] matched at the start of
    [text]: the two groups.  The first group is the longest run of
    characters that are not white space; a shorter one cannot be followed by
    the space that the pattern asks for. *)
Definition match_switch (text : string) : option (string * string) :=
  rest ← Str.skip_prefix "SwitchName=" text;
  let name := (Str.span (fun c => negb (Str.is_space c)) rest).1 in
  let after_name := (Str.span (fun c => negb (Str.is_space c)) rest).2 in
  if Str.truthy name then
    after_level ← Str.skip_prefix " Level=" after_name;
    let level := (Str.span Str.is_digit after_level).1 in
    if Str.truthy level then Some (name, level) else None
  else None.

(** [re.search(r'SwitchName=([^\s]+) Level=(\d+)', line)]: the leftmost
    match. *)
Fixpoint search_switch (line : string) : option (string * string) :=
  match match_switch line with
  | Some groups => Some groups
  | None =>
      match line with
      | EmptyString => None
      | String _ rest => search_switch rest
      end
  end.

(** [re.search(r'Switches=(.*?)$', line)]: the group is the text from the
    first [Switches=] to the end of the line. *)
Fixpoint search_parents (line : string) : option string :=
  match Str.skip_prefix "Switches=" line with
  | Some text => Some text
  | None =>
      match line with
      | EmptyString => None
      | String _ rest => search_parents rest
      end
  end.

(** The variables that the loop of [parse_topology_file] updates. *)
Record topology_state : Type := {
  ts_node_to_switch : gmap string string;
  ts_parents : gmap string string;
  ts_children : gmap string (list string);
  ts_current_switch : option string
}.

(** Lines 79 to 95: a line that declares a switch. *)
Definition parse_switch_line (st : topology_state) (line : string)
  : result topology_state :=
  match search_switch line with
  | Some (current_switch, level_text) =>
      switch_level <- Str.int level_text ;;
      let tables :=
        if switch_level =? 0 then
          match search_parents line with
          | Some parents_text =>
              record_leaf_parents current_switch parents_text
                (ts_parents st, ts_children st)
          | None => (ts_parents st, ts_children st)
          end
        else (ts_parents st, ts_children st) in
      Ok {| ts_node_to_switch := ts_node_to_switch st;
            ts_parents := tables.1;
            ts_children := tables.2;
            ts_current_switch := Some current_switch |}
  | None => Ok st
  end.

(** Lines 98 to 101: a line that lists nodes; a later line overwrites the
    switch of a node. *)
Definition parse_nodes_line (st : topology_state) (line : string)
  : result topology_state :=
  match ts_current_switch st with
  | Some current_switch =>
      if Str.contains_str "Nodes=" line && Str.truthy current_switch then
        expanded <- expand_nodes line ;;
        Ok {| ts_node_to_switch :=
                foldl (fun table node => <[node := current_switch]> table)
                  (ts_node_to_switch st) expanded;
              ts_parents := ts_parents st;
              ts_children := ts_children st;
              ts_current_switch := ts_current_switch st |}
      else Ok st
  | None => Ok st
  end.

Fixpoint parse_topology_lines (topo_output : list string) (st : topology_state)
  : result topology_state :=
  match topo_output with
  | [] => Ok st
  | line :: rest =>
      st <- parse_switch_line st line ;;
      st <- parse_nodes_line st line ;;
      parse_topology_lines rest st
  end.

(** [parse_topology_file] on the lines of the file. *)
Definition parse_topology_file (topo_output : list string)
  : result (gmap string string * switch_hierarchy) :=
  st <- parse_topology_lines topo_output
          {| ts_node_to_switch := ∅; ts_parents := ∅; ts_children := ∅;
             ts_current_switch := None |} ;;
  Ok (ts_node_to_switch st,
      {| hier_parents := Some (ts_parents st);
         hier_children := Some (ts_children st) |}).

Definition group_step (node_to_switch : gmap string string)
    (acc : odict (list string) * list string) (node : string)
  : odict (list string) * list string :=
  let '(switch_to_nodes, missing_nodes) := acc in
  match node_to_switch !! node with
  | Some switch =>
      if Str.truthy switch
      then (Dict.setdefault_append switch_to_nodes switch node, missing_nodes)
      else (switch_to_nodes, missing_nodes ++ [node])
  | None => (switch_to_nodes, missing_nodes ++ [node])
  end.

(** The loop of [group_nodes_by_switch], with the nodes it reports missing. *)
Definition group_nodes_loop (allocated_nodes : list string)
    (node_to_switch : gmap string string) : odict (list string) * list string :=
  foldl (group_step node_to_switch) ([], []) allocated_nodes.

Definition group_nodes_by_switch (allocated_nodes : list string)
    (node_to_switch : gmap string string) : odict (list string) :=
  (group_nodes_loop allocated_nodes node_to_switch).1.

Definition calculate_switch_distance (switch1 switch2 : string)
    (hierarchy : switch_hierarchy) : Z :=
  if decide (switch1 = switch2) then 0
  else
    let parents := default ∅ (hier_parents hierarchy) in
    match parents !! switch1, parents !! switch2 with
    | Some parent1, Some parent2 =>
        if Str.truthy parent1 && Str.truthy parent2
           && bool_decide (parent1 = parent2)
        then 1 else 2
    | _, _ => 2
    end.

(** The first parent listed in a recorded parent text. *)
Definition first_parent (parents_text : string) : string :=
  default EmptyString (head (Str.split_char "," parents_text)).

(** ** [node_allocation/strategies.py] *)

Section strategies.

(** The order in which the running interpreter enumerates a set of
    strings; it may differ from one run to the next. *)
Variable set_iter : gset string -> list string.

(** [round(n * (p / d))] on floating-point numbers, for [d <> 0]. *)
Variable round_ratio : Z -> Z -> Z -> Z.

Definition _handle_single_switch_case
    (switch_to_nodes : odict (list string)) (workload_a_nodes : Z)
  : list string * list string :=
  let all_nodes := concat (Py.sorted <$> Dict.values switch_to_nodes) in
  (Py.slice_to workload_a_nodes all_nodes,
   Py.slice_from workload_a_nodes all_nodes).

(** [round(num_nodes * (p / d))]; the division raises when [d] is zero. *)
Definition proportional (num_nodes p d : Z) : result Z :=
  if d =? 0 then Error ZeroDivisionError
  else Ok (round_ratio num_nodes p d).

(** Lines 92 to 126: how many nodes of a switch go to each workload. *)
Definition split_counts (workload_a_nodes workload_b_nodes : Z)
    (total_a total_b num_nodes : Z) : result (Z * Z) :=
  let nodes_left_a := Z.max 0 (workload_a_nodes - total_a) in
  let nodes_left_b := Z.max 0 (workload_b_nodes - total_b) in
  if num_nodes <=? nodes_left_a + nodes_left_b then
    if nodes_left_a =? 0 then Ok (0, Z.min num_nodes nodes_left_b)
    else if nodes_left_b =? 0 then Ok (Z.min num_nodes nodes_left_a, 0)
    else
      a_count <- proportional num_nodes nodes_left_a
                   (nodes_left_a + nodes_left_b) ;;
      let a_count := Z.min a_count nodes_left_a in
      Ok (a_count, Z.min (num_nodes - a_count) nodes_left_b)
  else
    if workload_a_nodes =? 0 then Ok (0, num_nodes)
    else if workload_b_nodes =? 0 then Ok (num_nodes, 0)
    else
      a_count <- proportional num_nodes workload_a_nodes
                   (workload_a_nodes + workload_b_nodes) ;;
      let a_count := Z.min a_count nodes_left_a in
      Ok (a_count, Z.min (num_nodes - a_count) nodes_left_b).

(** The variables that the loop of the even strategy updates. *)
Record even_state : Type := {
  ev_workload_a : list string;
  ev_workload_b : list string;
  ev_total_a : Z;
  ev_total_b : Z;
  ev_allocated_nodes : gset string
}.

(** Lines 83 to 137, over the switches still to be visited. *)
Fixpoint even_loop (switch_to_nodes : odict (list string))
    (workload_a_nodes workload_b_nodes : Z)
    (switches : list string) (st : even_state) : result even_state :=
  match switches with
  | [] => Ok st
  | switch :: rest =>
      let nodes := Py.sorted (Dict.at_key switch_to_nodes switch) in
      let num_nodes := Py.len nodes in
      if (workload_a_nodes <=? ev_total_a st)
         && (workload_b_nodes <=? ev_total_b st)
      then Ok st
      else
        counts <- split_counts workload_a_nodes workload_b_nodes
                    (ev_total_a st) (ev_total_b st) num_nodes ;;
        let '(a_count, b_count) := counts in
        even_loop switch_to_nodes workload_a_nodes workload_b_nodes rest
          {| ev_workload_a := ev_workload_a st ++ Py.slice_to a_count nodes;
             ev_workload_b :=
               ev_workload_b st ++ Py.slice a_count (a_count + b_count) nodes;
             ev_total_a := ev_total_a st + a_count;
             ev_total_b := ev_total_b st + b_count;
             ev_allocated_nodes :=
               ev_allocated_nodes st
               ∪ list_to_set (Py.slice_to (a_count + b_count) nodes) |}
  end.

Definition evenly_split_nodes_between_workloads
    (switch_to_nodes : odict (list string))
    (workload_a_nodes workload_b_nodes : Z)
  : result (list string * list string) :=
  if Py.len switch_to_nodes =? 1 then
    Ok (_handle_single_switch_case switch_to_nodes workload_a_nodes)
  else
    let switches := Py.sorted (Dict.keys switch_to_nodes) in
    let all_nodes :=
      concat ((fun switch => Py.sorted (Dict.at_key switch_to_nodes switch))
                <$> switches) in
    st <- even_loop switch_to_nodes workload_a_nodes workload_b_nodes switches
            {| ev_workload_a := []; ev_workload_b := [];
               ev_total_a := 0; ev_total_b := 0;
               ev_allocated_nodes := ∅ |} ;;
    let unallocated_nodes :=
      Py.sorted (set_iter (list_to_set all_nodes ∖ ev_allocated_nodes st)) in
    (* [if unallocated_nodes: workload_b.extend(unallocated_nodes)]:
       extending by the empty list changes nothing *)
    Ok (ev_workload_a st, ev_workload_b st ++ unallocated_nodes).

(** Lines 187 to 192: the first switch, in insertion order, among those
    with the most nodes; [None] when no switch has a node. *)
Definition find_largest (switch_to_nodes : odict (list string))
  : option string * Z :=
  foldl (fun acc item =>
           if acc.2 <? Py.len item.2 then (Some item.1, Py.len item.2)
           else acc)
        (None, 0) switch_to_nodes.

(** Lines 219 to 222: the other switches, nearest first. *)
Definition remaining_switches (switch_to_nodes : odict (list string))
    (switch_hierarchy : switch_hierarchy) (largest_switch : string)
  : list (string * Z) :=
  Py.sorted_by_key snd
    ((fun switch =>
        (switch, calculate_switch_distance largest_switch switch switch_hierarchy))
       <$> filter (fun switch => switch <> largest_switch)
             (Dict.keys switch_to_nodes)).

(** Lines 227 to 242: workload A and [nodes_needed] after the loop over
    the other switches. *)
Fixpoint fill_from_switches (switch_to_nodes : odict (list string))
    (switches : list (string * Z)) (workload_a : list string)
    (nodes_needed : Z) : list string * Z :=
  match switches with
  | [] => (workload_a, nodes_needed)
  | (switch, _) :: rest =>
      let switch_nodes := Py.sorted (Dict.at_key switch_to_nodes switch) in
      let '(workload_a, nodes_needed) :=
        if Py.len switch_nodes <=? nodes_needed
        then (workload_a ++ switch_nodes, nodes_needed - Py.len switch_nodes)
        else (workload_a ++ Py.slice_to nodes_needed switch_nodes, 0) in
      if nodes_needed <=? 0 then (workload_a, nodes_needed)
      else fill_from_switches switch_to_nodes rest workload_a nodes_needed
  end.

Definition compact_split_nodes_between_workloads
    (switch_to_nodes : odict (list string))
    (node_to_switch : gmap string string)
    (switch_hierarchy : switch_hierarchy)
    (workload_a_nodes workload_b_nodes : Z)
  : list string * list string :=
  if Py.len switch_to_nodes =? 1 then
    _handle_single_switch_case switch_to_nodes workload_a_nodes
  else
    let all_nodes := Dict.all_values switch_to_nodes in
    match (find_largest switch_to_nodes).1 with
    | None => ([], [])
    | Some largest_switch =>
        if negb (Str.truthy largest_switch) then ([], [])
        else if Py.len (Dict.at_key switch_to_nodes largest_switch) <? 1
        then ([], [])
        else
          let sorted_nodes :=
            Py.sorted (Dict.at_key switch_to_nodes largest_switch) in
          (* [workload_a.append(sorted_nodes[0])]: the list holds a node
             here, and [sorted_nodes[0:1]] is that node alone *)
          let workload_a := Py.slice 0 1 sorted_nodes in
          let largest_switch_remaining_nodes := Py.slice_from 1 sorted_nodes in
          let nodes_needed_for_b_from_largest_switch :=
            Z.min workload_b_nodes (Py.len largest_switch_remaining_nodes) in
          let workload_b :=
            Py.slice_to nodes_needed_for_b_from_largest_switch
              largest_switch_remaining_nodes in
          let largest_switch_remaining_nodes :=
            Py.slice_from nodes_needed_for_b_from_largest_switch
              largest_switch_remaining_nodes in
          let '(workload_a, nodes_needed) :=
            fill_from_switches switch_to_nodes
              (remaining_switches switch_to_nodes switch_hierarchy largest_switch)
              workload_a (workload_a_nodes - Py.len workload_a) in
          let workload_a :=
            if 0 <? nodes_needed
            then workload_a ++ Py.slice_to nodes_needed largest_switch_remaining_nodes
            else workload_a in
          let nodes_needed_for_b := workload_b_nodes - Py.len workload_b in
          let workload_b :=
            if 0 <? nodes_needed_for_b then
              let allocated_nodes : gset string :=
                list_to_set (workload_a ++ workload_b) in
              let unallocated_nodes :=
                Py.sorted (set_iter (list_to_set all_nodes ∖ allocated_nodes)) in
              workload_b ++ Py.slice_to nodes_needed_for_b unallocated_nodes
            else workload_b in
          (workload_a, workload_b)
    end.

End strategies.

(** ** [split_nodes_by_leaf.py] *)

(** [process_files] once the two input files are read and parsed: the
    result is the pair of node lists written to the output file, line by
    line, or the exit of the script. *)
Definition process_files (set_iter : gset string -> list string)
    (round_ratio : Z -> Z -> Z -> Z)
    (allocated_nodes : list string)
    (node_to_switch : gmap string string)
    (switch_hierarchy : switch_hierarchy)
    (strategy : string)
    (workload_a_nodes workload_b_nodes : option Z)
  : result (list string * list string) :=
  let switch_to_nodes := group_nodes_by_switch allocated_nodes node_to_switch in
  let total_nodes := Py.len allocated_nodes in
  match workload_a_nodes, workload_b_nodes with
  | Some workload_a_nodes, Some workload_b_nodes =>
      if total_nodes <? workload_a_nodes + workload_b_nodes
      then Error (SystemExit 1)
      else
        split <-
          (if decide (strategy = "even")
           then evenly_split_nodes_between_workloads set_iter round_ratio
                  switch_to_nodes workload_a_nodes workload_b_nodes
           else Ok (compact_split_nodes_between_workloads set_iter
                      switch_to_nodes node_to_switch switch_hierarchy
                      workload_a_nodes workload_b_nodes)) ;;
        let '(workload_a, workload_b) := split in
        if negb (Py.len workload_a =? workload_a_nodes)
           || negb (Py.len workload_b =? workload_b_nodes)
        then Error (SystemExit 1)
        else Ok (workload_a, workload_b)
  | _, _ => Error (SystemExit 1)
  end.

(** The two lines that [process_files] prints to the output file, lines 91
    and 92. *)
Definition output_lines (workload_a workload_b : list string) : list string :=
  [Str.join "," workload_a; Str.join "," workload_b].

(** What [process_files] leaves in the output file, lines 90 to 92: each
    [print] ends its line. *)
Definition output_text (workload_a workload_b : list string) : string :=
  foldr (fun line text => line +:+ String "010" text) EmptyString
    (output_lines workload_a workload_b).

(** [test_main] reads the output file back, lines 140 to 146 and 162 to
    163: [f.read().strip().split('\n')], then the names of its first two
    lines. *)
Definition read_split_nodes (text : string)
  : result (list string * list string) :=
  let split_nodes := Str.split_char "010" (Str.strip text) in
  line_a <- index split_nodes 0 ;;
  line_b <- index split_nodes 1 ;;
  Ok (Str.split_char "," line_a, Str.split_char "," line_b).

(** ** Instances used to run the model *)

(** Rounding of the exact quotient [n * p / d] to the nearest integer, ties
    to the even one, for [0 < d]. *)
Definition round_half_even (n p d : Z) : Z :=
  let q := (n * p) / d in
  let r := (n * p) mod d in
  if 2 * r <? d then q
  else if d <? 2 * r then q + 1
  else if Z.even q then q else q + 1.

(** A set enumerated in the order of [elements], and in the reverse order. *)
Definition iter_forward (X : gset string) : list string := elements X.
Definition iter_backward (X : gset string) : list string := reverse (elements X).

(** ** Notions used to state the properties *)

(** A node is known to the topology when [node_to_switch.get(node)] is a
    switch name that counts as true. *)
Definition known_to_topology (node_to_switch : gmap string string)
    (node : string) : bool :=
  match node_to_switch !! node with
  | Some switch => Str.truthy switch
  | None => false
  end.

(** How many times [x] occurs in [l]. *)
Definition occurrences (x : string) (l : list string) : nat :=
  length (filter (fun y => y = x) l).

(** What [group_nodes_by_switch] guarantees of the grouping it returns: each
    switch once, under a name that counts as true, with at least one node,
    and each node under the switch that the topology gives it. *)
Definition well_grouped (node_to_switch : gmap string string)
    (switch_to_nodes : odict (list string)) : Prop :=
  Dict.wf switch_to_nodes
  /\ Forall (fun item =>
               Str.truthy item.1 = true
               /\ item.2 <> []
               /\ Forall (fun node => node_to_switch !! node = Some item.1) item.2)
            switch_to_nodes.

(** The text [prefix[start-end]] of a bracketed range. *)
Definition range_spec (prefix start_str end_str : string) : string :=
  prefix +:+ "[" +:+ start_str +:+ "-" +:+ end_str +:+ "]".

(** A range bound is a text without bracket or dash, so that the splits of
    [expand_nodes] cut the range where it is written. *)
Definition plain_bound (s : string) : Prop :=
  Str.contains "[" s = false
  /\ Str.contains "]" s = false
  /\ Str.contains "-" s = false.

(** An iteration order enumerates every set: each member, once. *)
Definition enumerates (set_iter : gset string -> list string) : Prop :=
  forall X : gset string, set_iter X ≡ₚ elements X.

(** What is used of the floating-point computation [round(n * (p / d))]:
    for a count [n] and a ratio [p / d] strictly between 0 and 1, the
    result lies between 0 and [n]. *)
Definition rounds_within (round_ratio : Z -> Z -> Z -> Z) : Prop :=
  forall n p d : Z, 0 <= n -> 0 < p < d -> 0 <= round_ratio n p d <= n.

(** The sorted nodes of a switch of the grouping. *)
Definition nodes_of (switch_to_nodes : odict (list string)) (switch : string)
  : list string :=
  Py.sorted (Dict.at_key switch_to_nodes switch).

(** What the loop of the even strategy maintains: the nodes given to a
    workload are recorded as allocated, and no node is given to both. *)
Definition even_invariant (st : even_state) : Prop :=
  (forall x, x ∈ ev_workload_a st -> x ∈ ev_allocated_nodes st)
  /\ (forall x, x ∈ ev_workload_b st -> x ∈ ev_allocated_nodes st)
  /\ (forall x, x ∈ ev_workload_a st -> x ∉ ev_workload_b st).

(** A grouping as the strategies expect it: each switch once, under a name
    that counts as true, with at least one node. *)
Definition proper_groups (switch_to_nodes : odict (list string)) : Prop :=
  Dict.wf switch_to_nodes
  /\ Forall (fun item => Str.truthy item.1 = true /\ item.2 <> [])
       switch_to_nodes.

(** Every character of [s] satisfies [f]. *)
Fixpoint all_chars (f : ascii -> bool) (s : string) : bool :=
  match s with
  | EmptyString => true
  | String x r => f x && all_chars f r
  end.

(** What the loop of [parse_topology_file] maintains: the current switch
    and the switch of every node have a name that is not empty, and every
    switch recorded with a parent text is listed among the children of each
    parent named in the text. *)
Definition topology_invariant (st : topology_state) : Prop :=
  (forall c, ts_current_switch st = Some c -> Str.truthy c = true)
  /\ (forall node switch,
        ts_node_to_switch st !! node = Some switch ->
        Str.truthy switch = true)
  /\ (forall switch text parent,
        ts_parents st !! switch = Some text ->
        parent ∈ Str.split_char "," text ->
        exists kids, ts_children st !! parent = Some kids /\ switch ∈ kids).

(** A node name that the output file can hold: not empty, without comma
    and without white space. *)
Definition plain_name (name : string) : Prop :=
  name <> EmptyString
  /\ Str.contains "," name = false
  /\ all_chars (fun c => negb (Str.is_space c)) name = true.

(** * Properties *)

(** ** Slices and sorting *)

Section py_facts.
Context {A : Type}.
Implicit Types l : list A.

Lemma clamp_le n i : (Py.clamp n i <= n)%nat.
Proof. unfold Py.clamp. destruct (Z.ltb_spec i 0); lia. Qed.

Lemma clamp_nonneg n i : 0 <= i -> Py.clamp n i = Nat.min (Z.to_nat i) n.
Proof. intros Hi. unfold Py.clamp. destruct (Z.ltb_spec i 0); [lia | done]. Qed.

(** [l[:k] + l[k:] == l], for every integer [k]. *)
Lemma slice_to_from k l : Py.slice_to k l ++ Py.slice_from k l = l.
Proof. apply take_drop. Qed.

Lemma slice_to_sublist k l : Py.slice_to k l `sublist_of` l.
Proof. apply sublist_take. Qed.

Lemma slice_from_sublist k l : Py.slice_from k l `sublist_of` l.
Proof. apply sublist_drop. Qed.

Lemma slice_sublist i j l : Py.slice i j l `sublist_of` l.
Proof.
  unfold Py.slice. etrans; [apply sublist_take | apply sublist_drop].
Qed.

Lemma elem_of_slice_to x k l : x ∈ Py.slice_to k l -> x ∈ l.
Proof. intros H. eapply elem_of_sublist; [done | apply slice_to_sublist]. Qed.

Lemma elem_of_slice_from x k l : x ∈ Py.slice_from k l -> x ∈ l.
Proof. intros H. eapply elem_of_sublist; [done | apply slice_from_sublist]. Qed.

Lemma elem_of_slice x i j l : x ∈ Py.slice i j l -> x ∈ l.
Proof. intros H. eapply elem_of_sublist; [done | apply slice_sublist]. Qed.

(** For counts that are not negative, [l[:a+b] == l[:a] + l[a:a+b]]. *)
Lemma slice_to_add a b l :
  0 <= a -> 0 <= b ->
  Py.slice_to (a + b) l = Py.slice_to a l ++ Py.slice a (a + b) l.
Proof.
  intros Ha Hb. unfold Py.slice_to, Py.slice.
  rewrite !clamp_nonneg by lia.
  rewrite take_take_drop. f_equal. lia.
Qed.

Lemma len_nonneg l : 0 <= Py.len l.
Proof. unfold Py.len. lia. Qed.

Lemma len_app l1 l2 : Py.len (l1 ++ l2) = Py.len l1 + Py.len l2.
Proof. unfold Py.len. rewrite length_app. lia. Qed.

Lemma len_slice_to k l :
  0 <= k <= Py.len l -> Py.len (Py.slice_to k l) = k.
Proof.
  intros Hk. unfold Py.len in *. unfold Py.slice_to.
  rewrite clamp_nonneg by lia. rewrite length_take. lia.
Qed.

Lemma insert_sorted_perm le x l : Py.insert_sorted le x l ≡ₚ x :: l.
Proof.
  induction l as [|y l IH]; simpl; [done|].
  destruct (le x y); [done|]. rewrite IH. apply perm_swap.
Qed.

(** Sorting rearranges: nothing is added, dropped or repeated. *)
Lemma sorted_by_perm le l : Py.sorted_by le l ≡ₚ l.
Proof.
  induction l as [|x l IH]; simpl; [done|].
  rewrite insert_sorted_perm. by rewrite IH.
Qed.

Lemma len_sorted_by le l : Py.len (Py.sorted_by le l) = Py.len l.
Proof. unfold Py.len. by rewrite (sorted_by_perm le l). Qed.

End py_facts.

Lemma sorted_perm (l : list string) : Py.sorted l ≡ₚ l.
Proof. apply sorted_by_perm. Qed.

Lemma elem_of_sorted x (l : list string) : x ∈ Py.sorted l <-> x ∈ l.
Proof. by rewrite sorted_perm. Qed.

Lemma len_sorted (l : list string) : Py.len (Py.sorted l) = Py.len l.
Proof. apply len_sorted_by. Qed.

Lemma NoDup_sorted (l : list string) : NoDup (Py.sorted l) <-> NoDup l.
Proof. by rewrite sorted_perm. Qed.

Lemma insert_sorted_Sorted x (l : list string) :
  Sorted String.le l -> Sorted String.le (Py.insert_sorted String.leb x l).
Proof.
  induction 1 as [|y l Hl IH Hy]; simpl; [by repeat constructor|].
  destruct (String.leb x y) eqn:Hxy.
  - constructor; [by constructor|]. constructor. unfold String.le. by rewrite Hxy.
  - assert (String.le y x) as Hyx.
    { destruct (total String.le x y) as [H|H]; [|done].
      unfold String.le in H. by rewrite Hxy in H. }
    constructor; [done|].
    destruct Hy as [|z l' Hz]; simpl; [by constructor|].
    destruct (String.leb x z); by constructor.
Qed.

Lemma sorted_Sorted (l : list string) : Sorted String.le (Py.sorted l).
Proof.
  induction l as [|x l IH]; [constructor|]. by apply insert_sorted_Sorted.
Qed.

(** The sorted list depends on the elements only, not on their order in the
    input. *)
Lemma sorted_perm_eq (l1 l2 : list string) :
  l1 ≡ₚ l2 -> Py.sorted l1 = Py.sorted l2.
Proof.
  intros Hp. apply (Sorted_unique String.le); [apply sorted_Sorted..|].
  by rewrite !sorted_perm.
Qed.

(** ** The switch distance *)

Lemma distance_same (s : string) (hierarchy : switch_hierarchy) :
  calculate_switch_distance s s hierarchy = 0.
Proof. unfold calculate_switch_distance. by rewrite decide_True. Qed.

Lemma distance_sym (x y : string) (hierarchy : switch_hierarchy) :
  calculate_switch_distance x y hierarchy = calculate_switch_distance y x hierarchy.
Proof.
  unfold calculate_switch_distance.
  destruct (decide (x = y)) as [->|Hxy].
  - by rewrite decide_True.
  - rewrite decide_False by congruence.
    destruct (default ∅ (hier_parents hierarchy) !! x) as [px|],
             (default ∅ (hier_parents hierarchy) !! y) as [py|]; try done.
    rewrite (andb_comm (Str.truthy px)).
    destruct (decide (px = py)) as [->|Hp].
    + done.
    + rewrite !bool_decide_eq_false_2 by congruence. by rewrite !andb_false_r.
Qed.

(** C8: the distance from a switch to itself is 0, and the distance does not
    depend on the order of its two switches, in every hierarchy. *)
Theorem distance_zero_and_symmetric
    (hierarchy : switch_hierarchy) (s x y : string) :
  calculate_switch_distance s s hierarchy = 0
  /\ calculate_switch_distance x y hierarchy
     = calculate_switch_distance y x hierarchy.
Proof. split; [apply distance_same | apply distance_sym]. Qed.

(** The distance of two distinct switches with recorded parents is 1 when
    the two recorded texts are the same non-empty text, and 2 otherwise. *)
Lemma distance_recorded (s1 s2 p1 p2 : string) (table : gmap string string)
    (kids : option (gmap string (list string))) :
  s1 <> s2 -> table !! s1 = Some p1 -> table !! s2 = Some p2 ->
  calculate_switch_distance s1 s2
    {| hier_parents := Some table; hier_children := kids |}
  = if decide (p1 = p2 /\ p1 <> EmptyString) then 1 else 2.
Proof.
  intros Hne H1 H2. unfold calculate_switch_distance.
  rewrite decide_False by done. simpl. rewrite H1, H2.
  destruct (decide (p1 = p2 /\ p1 <> EmptyString)) as [[-> Hp]|Hn].
  - rewrite bool_decide_eq_true_2 by done. by destruct p2.
  - destruct (decide (p1 = p2)) as [->|Hd].
    + destruct p2; [done|]. exfalso. apply Hn. by split.
    + rewrite bool_decide_eq_false_2 by done. by rewrite andb_false_r.
Qed.

(** C3: two leaf switches declared with the parents [p1,p2] and [p1,p3]
    have the same first-listed parent, and the distance computed for them
    is 2: the whole recorded texts are compared. *)
Theorem distance_same_first_parent_is_2 :
  match parse_topology_file
          ["SwitchName=s1 Level=0 Switches=p1,p2";
           "SwitchName=s2 Level=0 Switches=p1,p3"] with
  | Ok (_, hierarchy) =>
      default ∅ (hier_parents hierarchy) !! "s1" = Some "p1,p2"
      /\ default ∅ (hier_parents hierarchy) !! "s2" = Some "p1,p3"
      /\ first_parent "p1,p2" = first_parent "p1,p3"
      /\ calculate_switch_distance "s1" "s2" hierarchy = 2
  | Error _ => False
  end.
Proof. vm_compute. repeat split; reflexivity. Qed.

(** ** The single-switch case *)

Lemma single_switch_case (switch : string) (nodes : list string) (a : Z) :
  _handle_single_switch_case [(switch, nodes)] a
  = (Py.slice_to a (Py.sorted nodes), Py.slice_from a (Py.sorted nodes)).
Proof.
  unfold _handle_single_switch_case. simpl. by rewrite app_nil_r.
Qed.

(** C5, as the code has it: with one switch, both strategies give workload A
    the first [requested_a] nodes in sorted order and workload B every node
    that is left, whatever [requested_b] is; no node is left out. *)
Theorem single_switch_split (set_iter : gset string -> list string)
    (round_ratio : Z -> Z -> Z -> Z)
    (switch : string) (nodes : list string)
    (node_to_switch : gmap string string) (hierarchy : switch_hierarchy)
    (requested_a requested_b : Z) :
  let A := Py.slice_to requested_a (Py.sorted nodes) in
  let B := Py.slice_from requested_a (Py.sorted nodes) in
  evenly_split_nodes_between_workloads set_iter round_ratio
    [(switch, nodes)] requested_a requested_b = Ok (A, B)
  /\ compact_split_nodes_between_workloads set_iter
       [(switch, nodes)] node_to_switch hierarchy requested_a requested_b
     = (A, B)
  /\ A ++ B = Py.sorted nodes.
Proof.
  simpl. split; [|split].
  - unfold evenly_split_nodes_between_workloads. simpl.
    by rewrite single_switch_case.
  - unfold compact_split_nodes_between_workloads. simpl.
    by rewrite single_switch_case.
  - apply slice_to_from.
Qed.

(** C5, as stated, fails: one switch with three nodes and one node requested
    for each workload puts three nodes in the two lists, not two. *)
Lemma single_switch_exceeds_requested_total :
  evenly_split_nodes_between_workloads iter_forward round_half_even
    [("s1", ["n2"; "n3"; "n1"])] 1 1 = Ok (["n1"], ["n2"; "n3"])
  /\ compact_split_nodes_between_workloads iter_forward
       [("s1", ["n2"; "n3"; "n1"])] ∅
       {| hier_parents := None; hier_children := None |} 1 1
     = (["n1"], ["n2"; "n3"])
  /\ ~ (Py.len ["n1"] + Py.len ["n2"; "n3"] <= 1 + 1).
Proof. split; [|split]; [reflexivity..|]. vm_compute. congruence. Qed.

(** ** Dictionaries *)

(** [concat] is the join of stdpp's list monad. *)
Lemma concat_join {A} (ls : list (list A)) : concat ls = mjoin ls.
Proof. induction ls as [|l ls IH]; simpl; [done | by rewrite IH]. Qed.

Lemma elem_of_concat {A} (x : A) (ls : list (list A)) :
  x ∈ concat ls <-> exists l, x ∈ l /\ l ∈ ls.
Proof. rewrite concat_join. apply list_elem_of_join. Qed.

Lemma concat_perm {A} (ls1 ls2 : list (list A)) :
  ls1 ≡ₚ ls2 -> concat ls1 ≡ₚ concat ls2.
Proof. intros H. rewrite !concat_join. by rewrite H. Qed.

Section dict_facts.
Context {V : Type}.
Implicit Types d : odict (list V).

Lemma all_values_cons k (v : list V) d :
  Dict.all_values ((k, v) :: d) = v ++ Dict.all_values d.
Proof. done. Qed.

Lemma all_values_setdefault_append d k x :
  Dict.all_values (Dict.setdefault_append d k x) ≡ₚ x :: Dict.all_values d.
Proof.
  induction d as [|[k' v] d IH]; simpl; [done|].
  destruct (decide (k' = k)) as [->|Hk].
  - rewrite !all_values_cons. rewrite <-app_assoc. simpl.
    by rewrite <-Permutation_middle.
  - rewrite !all_values_cons, IH. by rewrite <-Permutation_middle.
Qed.

Lemma keys_setdefault_append d k x :
  Dict.keys (Dict.setdefault_append d k x)
  = if decide (k ∈ Dict.keys d) then Dict.keys d else Dict.keys d ++ [k].
Proof.
  unfold Dict.keys.
  induction d as [|[k' v] d IH].
  - destruct (decide (k ∈ fst <$> [])) as [Hin|Hin]; [|done].
    by apply elem_of_nil in Hin.
  - cbn [Dict.setdefault_append]. rewrite fmap_cons.
    destruct (decide (k' = k)) as [->|Hk].
    + rewrite decide_True; [done | left].
    + rewrite fmap_cons, IH. cbn [fst].
      destruct (decide (k ∈ fst <$> d)) as [Hin|Hin].
      * rewrite decide_True; [done | by right].
      * rewrite decide_False; [done|].
        rewrite elem_of_cons. intros [?|?]; congruence.
Qed.

Lemma wf_setdefault_append d k x :
  Dict.wf d -> Dict.wf (Dict.setdefault_append d k x).
Proof.
  unfold Dict.wf. intros Hd. rewrite keys_setdefault_append.
  destruct (decide (k ∈ Dict.keys d)) as [Hin|Hin]; [done|].
  apply NoDup_app. split; [done|]. split.
  - intros y Hy ->%list_elem_of_singleton. done.
  - apply NoDup_singleton.
Qed.

Lemma get_elem_of d k (v : list V) : Dict.get d k = Some v -> (k, v) ∈ d.
Proof.
  induction d as [|[k' v'] d IH]; simpl; [done|].
  destruct (decide (k' = k)) as [->|Hk].
  - intros [= ->]. left.
  - intros H. right. auto.
Qed.

Lemma get_of_wf d k (v : list V) :
  Dict.wf d -> (k, v) ∈ d -> Dict.get d k = Some v.
Proof.
  unfold Dict.wf, Dict.keys.
  induction d as [|[k' v'] d IH]; simpl; intros Hd Hin.
  - by apply elem_of_nil in Hin.
  - apply NoDup_cons in Hd as [Hk' Hd].
    apply elem_of_cons in Hin as [[= -> ->]|Hin].
    + by rewrite decide_True.
    + rewrite decide_False; [auto|].
      intros ->. apply Hk'. apply list_elem_of_fmap. by exists (k, v).
Qed.

Lemma get_None d k : k ∉ Dict.keys d -> Dict.get d k = None.
Proof.
  unfold Dict.keys. induction d as [|[k' v'] d IH]; simpl; [done|].
  rewrite not_elem_of_cons. intros [Hk Hd].
  rewrite decide_False by done. auto.
Qed.

Lemma elem_of_at_key d k x :
  x ∈ Dict.at_key d k -> x ∈ Dict.all_values d.
Proof.
  unfold Dict.at_key. destruct (Dict.get d k) as [v|] eqn:Hg; simpl.
  - intros Hx. apply get_elem_of in Hg.
    unfold Dict.all_values, Dict.values. apply elem_of_concat.
    exists v. split; [done|]. apply list_elem_of_fmap. by exists (k, v).
  - by intros ?%elem_of_nil.
Qed.

(** Looking up the keys of a well-formed dictionary, in order, gives its
    values in order. *)
Lemma at_key_keys d :
  Dict.wf d -> Dict.at_key d <$> Dict.keys d = Dict.values d.
Proof.
  intros Hd. unfold Dict.keys, Dict.values.
  rewrite <-list_fmap_compose. apply list_fmap_ext.
  intros i [k v] Hin%list_elem_of_lookup_2. simpl. unfold Dict.at_key.
  by rewrite (get_of_wf d k v).
Qed.

End dict_facts.

(** ** The switch grouper *)

Section group_facts.
Variable node_to_switch : gmap string string.

Lemma group_step_nodes acc node :
  Dict.all_values (group_step node_to_switch acc node).1
  ≡ₚ Dict.all_values acc.1
     ++ (if known_to_topology node_to_switch node then [node] else []).
Proof.
  destruct acc as [d missing]. unfold group_step, known_to_topology. simpl.
  destruct (node_to_switch !! node) as [switch|]; simpl;
    [destruct (Str.truthy switch); simpl|]; rewrite ?app_nil_r; try done.
  rewrite all_values_setdefault_append. by rewrite <-Permutation_cons_append.
Qed.

Lemma group_loop_nodes allocated acc :
  Dict.all_values (foldl (group_step node_to_switch) acc allocated).1
  ≡ₚ Dict.all_values acc.1
     ++ filter (fun node => known_to_topology node_to_switch node = true)
          allocated.
Proof.
  revert acc. induction allocated as [|node l IH]; intros acc; simpl.
  - by rewrite app_nil_r.
  - rewrite IH, group_step_nodes, <-app_assoc. f_equiv.
    rewrite filter_cons.
    by destruct (known_to_topology node_to_switch node).
Qed.

(** The groups hold the allocated nodes known to the topology, each as
    many times as it is allocated. *)
Lemma group_nodes_perm allocated :
  Dict.all_values (group_nodes_by_switch allocated node_to_switch)
  ≡ₚ filter (fun node => known_to_topology node_to_switch node = true)
       allocated.
Proof.
  unfold group_nodes_by_switch, group_nodes_loop.
  by rewrite group_loop_nodes.
Qed.

Lemma well_grouped_setdefault_append d switch node :
  well_grouped node_to_switch d ->
  node_to_switch !! node = Some switch -> Str.truthy switch = true ->
  well_grouped node_to_switch (Dict.setdefault_append d switch node).
Proof.
  intros [Hwf Hall] Hn Ht. split; [by apply wf_setdefault_append|].
  clear Hwf. induction Hall as [|[k v] d (Hk & Hv & Hvs) Hall IH]; simpl.
  - repeat constructor; simpl; done.
  - destruct (decide (k = switch)) as [->|Hne].
    + constructor; [|done]. simpl in *. split; [done|]. split.
      * by destruct v.
      * apply Forall_app. split; [done|]. by constructor.
    + constructor; [|done]. by simpl.
Qed.

Lemma well_grouped_step acc node :
  well_grouped node_to_switch acc.1 ->
  well_grouped node_to_switch (group_step node_to_switch acc node).1.
Proof.
  destruct acc as [d missing]. unfold group_step. simpl. intros Hd.
  destruct (node_to_switch !! node) as [switch|] eqn:Hn; [|done].
  destruct (Str.truthy switch) eqn:Ht; [|done].
  by apply well_grouped_setdefault_append.
Qed.

Lemma well_grouped_group allocated :
  well_grouped node_to_switch (group_nodes_by_switch allocated node_to_switch).
Proof.
  unfold group_nodes_by_switch, group_nodes_loop.
  assert (well_grouped node_to_switch (([], []) : odict (list string) * list string).1)
    as Hinit.
  { split; [apply NoDup_nil_2 | constructor]. }
  revert Hinit. generalize (([], []) : odict (list string) * list string).
  induction allocated as [|node l IH]; intros acc Hacc; simpl; [done|].
  apply IH. by apply well_grouped_step.
Qed.

(** A node placed in a group is known to the topology. *)
Lemma grouped_node_known d node :
  well_grouped node_to_switch d ->
  node ∈ Dict.all_values d -> is_Some (node_to_switch !! node).
Proof.
  intros [_ Hall]. unfold Dict.all_values, Dict.values.
  intros (v & Hv & Hin)%elem_of_concat.
  apply list_elem_of_fmap in Hin as ([k v'] & -> & Hin).
  rewrite Forall_forall in Hall. destruct (Hall _ Hin) as (_ & _ & Hvs).
  rewrite Forall_forall in Hvs. eexists. by apply Hvs.
Qed.

(** A node placed in a group is an allocated node. *)
Lemma grouped_node_allocated allocated node :
  node ∈ Dict.all_values (group_nodes_by_switch allocated node_to_switch) ->
  node ∈ allocated.
Proof.
  rewrite group_nodes_perm. by intros [_ ?]%list_elem_of_filter.
Qed.

End group_facts.

Lemma occurrences_perm (x : string) (l1 l2 : list string) :
  l1 ≡ₚ l2 -> occurrences x l1 = occurrences x l2.
Proof. unfold occurrences. by intros ->. Qed.

Lemma occurrences_filter (P : string -> Prop) `{!forall y, Decision (P y)}
    (x : string) (l : list string) :
  P x -> occurrences x (filter P l) = occurrences x l.
Proof.
  intros Hx. unfold occurrences. f_equal.
  induction l as [|y l IH]; [done|].
  rewrite !filter_cons. destruct (decide (P y)) as [Hy|Hy].
  - rewrite filter_cons. destruct (decide (y = x)); by rewrite IH.
  - destruct (decide (y = x)) as [->|]; [done | apply IH].
Qed.

(** C6, as the code has it: the grouper keeps every occurrence.  A node known
    to the topology occurs in the groups as many times as it occurs in the
    allocated sequence. *)
Theorem group_keeps_duplicates (allocated : list string)
    (node_to_switch : gmap string string) (node : string) :
  known_to_topology node_to_switch node = true ->
  occurrences node
    (Dict.all_values (group_nodes_by_switch allocated node_to_switch))
  = occurrences node allocated.
Proof.
  intros Hk. rewrite (occurrences_perm _ _ _ (group_nodes_perm _ _)).
  by apply (occurrences_filter
              (fun n => known_to_topology node_to_switch n = true)).
Qed.

Lemma group_keeps_duplicates_witness :
  occurrences "n1"
    (Dict.all_values
       (group_nodes_by_switch ["n1"; "n2"; "n1"]
          (<["n1" := "s1"]> (<["n2" := "s1"]> ∅))))
  = occurrences "n1" ["n1"; "n2"; "n1"].
Proof. apply group_keeps_duplicates. reflexivity. Defined.

(** C6, as stated, fails: a node allocated twice is twice in its group. *)
Lemma group_duplicate_node_kept :
  group_nodes_by_switch ["n1"; "n1"] (<["n1" := "s1"]> ∅)
  = [("s1", ["n1"; "n1"])]
  /\ ~ NoDup (Dict.all_values
                (group_nodes_by_switch ["n1"; "n1"] (<["n1" := "s1"]> ∅))).
Proof.
  split; [reflexivity|].
  change (~ NoDup ["n1"; "n1"]). rewrite NoDup_cons. intros [H _].
  apply H. left.
Qed.

(** ** Hostlist expansion *)

Lemma append_cons (x : ascii) (s t : string) :
  String x s +:+ t = String x (s +:+ t).
Proof. done. Qed.

Lemma append_empty (t : string) : EmptyString +:+ t = t.
Proof. done. Qed.

Lemma append_assoc (s t u : string) : (s +:+ t) +:+ u = s +:+ t +:+ u.
Proof.
  induction s as [|x s IH]; [done|].
  change (String x ((s +:+ t) +:+ u) = String x (s +:+ t +:+ u)).
  by rewrite IH.
Qed.

Lemma contains_append (c : ascii) (s t : string) :
  Str.contains c (s +:+ t) = Str.contains c s || Str.contains c t.
Proof.
  induction s as [|x s IH]; [done|].
  rewrite append_cons. simpl. rewrite IH. by rewrite orb_assoc.
Qed.

Lemma split_char_without (c : ascii) (s : string) :
  Str.contains c s = false -> Str.split_char c s = [s].
Proof.
  induction s as [|x s IH]; simpl; [done|].
  intros [Hx Hs]%orb_false_elim. rewrite Hx, IH by done. done.
Qed.

(** A split cuts at the first separator. *)
Lemma split_char_at (c : ascii) (s t : string) :
  Str.contains c s = false ->
  Str.split_char c (s +:+ String c t) = s :: Str.split_char c t.
Proof.
  induction s as [|x s IH]; intros Hs.
  - rewrite append_empty. simpl. by rewrite bool_decide_eq_true_2.
  - rewrite append_cons. simpl in *. apply orb_false_elim in Hs as [Hx Hs].
    rewrite Hx, IH by done. done.
Qed.

Lemma split_char_two_pieces (c : ascii) (s : string) :
  Str.contains c s = true -> (2 <= length (Str.split_char c s))%nat.
Proof.
  induction s as [|x s IH]; simpl; [done|].
  destruct (bool_decide (x = c)); simpl.
  - intros _. destruct s; simpl; [lia|].
    destruct (bool_decide _); simpl; [lia|].
    destruct (Str.split_char c s); simpl; lia.
  - intros H. specialize (IH H).
    destruct (Str.split_char c s) as [|? [|? ?]]; simpl in *; lia.
Qed.

Lemma split_char_nonempty (c : ascii) (s : string) :
  (1 <= length (Str.split_char c s))%nat.
Proof.
  destruct s as [|x s]; simpl; [lia|].
  destruct (bool_decide _); simpl; [lia|].
  destruct (Str.split_char c s); simpl; lia.
Qed.

Lemma index_in_range {A} (l : list A) (i : nat) :
  (i < length l)%nat -> exists x, index l i = Ok x.
Proof.
  intros Hi. unfold index.
  destruct (lookup_lt_is_Some_2 l i Hi) as [x ->]. by exists x.
Qed.

Lemma int_error (s : string) (e : py_error) :
  Str.int s = Error e -> e = ValueError.
Proof.
  unfold Str.int. destruct (Str.signed_digits (Str.strip s)); [|congruence].
  destruct (_ <? _); congruence.
Qed.

(** Whatever stops the expansion of a specification is a [ValueError]. *)
Lemma expand_spec_error (spec : string) (e : py_error) :
  expand_spec spec = Error e -> e = ValueError.
Proof.
  unfold expand_spec.
  destruct (Str.contains "[" spec) eqn:Hl; simpl; [|done].
  destruct (Str.contains "]" spec) eqn:Hr; simpl; [|done].
  destruct (index_in_range (Str.split_char "[" spec) 0) as [prefix ->].
  { pose proof (split_char_nonempty "[" spec). lia. }
  destruct (index_in_range (Str.split_char "[" spec) 1) as [bracketed ->].
  { by apply split_char_two_pieces. }
  simpl.
  destruct (index_in_range (Str.split_char "]" bracketed) 0) as [range_part ->].
  { pose proof (split_char_nonempty "]" bracketed). lia. }
  simpl. destruct (Str.contains "-" range_part).
  - destruct (Str.split_char "-" range_part) as [|start_str [|end_str [|? ?]]];
      try congruence.
    destruct (Str.int start_str) eqn:H1; simpl;
      [|intros [= <-]; by apply int_error in H1].
    destruct (Str.int end_str) eqn:H2; simpl;
      [done | intros [= <-]; by apply int_error in H2].
  - destruct (Str.int range_part) eqn:H1; simpl;
      [done | intros [= <-]; by apply int_error in H1].
Qed.



(** The splits of [expand_nodes] on a bracketed range. *)
Lemma expand_range_spec (prefix start_str end_str : string) :
  Str.contains "[" prefix = false ->
  plain_bound start_str -> plain_bound end_str ->
  expand_spec (range_spec prefix start_str end_str)
  = (start <- Str.int start_str ;;
     end_ <- Str.int end_str ;;
     Ok ((fun num =>
            prefix +:+ Str.format_d num (Z.of_nat (String.length start_str)))
           <$> Py.range start (end_ + 1))).
Proof.
  intros Hp (Hs1 & Hs2 & Hs3) (He1 & He2 & He3).
  unfold expand_spec, range_spec.
  assert (Str.contains "[" (prefix +:+ "[" +:+ start_str +:+ "-" +:+ end_str +:+ "]")
          = true) as ->.
  { rewrite contains_append. simpl. by rewrite orb_true_r. }
  assert (Str.contains "]" (prefix +:+ "[" +:+ start_str +:+ "-" +:+ end_str +:+ "]")
          = true) as ->.
  { rewrite !contains_append. simpl. by rewrite !orb_true_r. }
  simpl.
  change ("[" +:+ start_str +:+ "-" +:+ end_str +:+ "]")
    with (String "[" (start_str +:+ "-" +:+ end_str +:+ "]")).
  rewrite split_char_at by done.
  rewrite split_char_without.
  2:{ rewrite !contains_append. simpl. by rewrite Hs1, He1. }
  unfold index at 1 2. simpl.
  assert (start_str +:+ "-" +:+ end_str +:+ "]"
          = (start_str +:+ "-" +:+ end_str) +:+ String "]" EmptyString) as ->.
  { by rewrite !append_assoc. }
  rewrite split_char_at.
  2:{ rewrite !contains_append. simpl. by rewrite Hs2, He2. }
  unfold index at 1. simpl.
  assert (Str.contains "-" (start_str +:+ "-" +:+ end_str) = true) as ->.
  { rewrite contains_append. simpl. by rewrite orb_true_r. }
  change ("-" +:+ end_str) with (String "-" end_str).
  rewrite split_char_at by done.
  by rewrite split_char_without.
Qed.





(** ** Determinism *)

(** The sorted enumeration of a set is the same under every iteration
    order. *)
Lemma sorted_set_iter (iter1 iter2 : gset string -> list string)
    (X : gset string) :
  enumerates iter1 -> enumerates iter2 ->
  Py.sorted (iter1 X) = Py.sorted (iter2 X).
Proof. intros H1 H2. apply sorted_perm_eq. by rewrite (H1 X), (H2 X). Qed.

Lemma even_deterministic (iter1 iter2 : gset string -> list string)
    (round_ratio : Z -> Z -> Z -> Z) (switch_to_nodes : odict (list string))
    (requested_a requested_b : Z) :
  enumerates iter1 -> enumerates iter2 ->
  evenly_split_nodes_between_workloads iter1 round_ratio
    switch_to_nodes requested_a requested_b
  = evenly_split_nodes_between_workloads iter2 round_ratio
      switch_to_nodes requested_a requested_b.
Proof.
  intros H1 H2. unfold evenly_split_nodes_between_workloads.
  destruct (Py.len switch_to_nodes =? 1); [done|]. cbv zeta.
  destruct (even_loop _ _ _ _ _ _) as [st|e]; simpl; [|done].
  by rewrite (sorted_set_iter iter1 iter2).
Qed.

Lemma compact_deterministic (iter1 iter2 : gset string -> list string)
    (switch_to_nodes : odict (list string))
    (node_to_switch : gmap string string) (hierarchy : switch_hierarchy)
    (requested_a requested_b : Z) :
  enumerates iter1 -> enumerates iter2 ->
  compact_split_nodes_between_workloads iter1
    switch_to_nodes node_to_switch hierarchy requested_a requested_b
  = compact_split_nodes_between_workloads iter2
      switch_to_nodes node_to_switch hierarchy requested_a requested_b.
Proof.
  intros H1 H2. unfold compact_split_nodes_between_workloads.
  destruct (Py.len switch_to_nodes =? 1); [done|]. cbv zeta.
  destruct (find_largest switch_to_nodes).1 as [largest|]; [|done].
  destruct (negb _); [done|]. destruct (_ <? 1); [done|].
  destruct (fill_from_switches _ _ _ _) as [workload_a nodes_needed].
  by rewrite (sorted_set_iter iter1 iter2).
Qed.

(** C9: the two strategies are functions of their input, and their output
    does not depend on the order in which a run enumerates the sets it
    builds: two runs with different iteration orders return the same
    lists. *)
Theorem strategies_deterministic (iter1 iter2 : gset string -> list string)
    (round_ratio : Z -> Z -> Z -> Z) (switch_to_nodes : odict (list string))
    (node_to_switch : gmap string string) (hierarchy : switch_hierarchy)
    (requested_a requested_b : Z) :
  enumerates iter1 -> enumerates iter2 ->
  evenly_split_nodes_between_workloads iter1 round_ratio
    switch_to_nodes requested_a requested_b
  = evenly_split_nodes_between_workloads iter2 round_ratio
      switch_to_nodes requested_a requested_b
  /\ compact_split_nodes_between_workloads iter1
       switch_to_nodes node_to_switch hierarchy requested_a requested_b
     = compact_split_nodes_between_workloads iter2
         switch_to_nodes node_to_switch hierarchy requested_a requested_b.
Proof.
  intros H1 H2. split;
    [by apply even_deterministic | by apply compact_deterministic].
Qed.

Lemma enumerates_forward : enumerates iter_forward.
Proof. intros X. done. Qed.

Lemma enumerates_backward : enumerates iter_backward.
Proof. intros X. unfold iter_backward. apply reverse_Permutation. Qed.

Lemma strategies_deterministic_witness :
  let switch_to_nodes :=
    [("s1", ["n3"; "n1"]); ("s2", ["n2"]); ("s3", ["n5"; "n4"])] in
  let hierarchy := {| hier_parents := None; hier_children := None |} in
  evenly_split_nodes_between_workloads iter_forward round_half_even
    switch_to_nodes 1 3
  = evenly_split_nodes_between_workloads iter_backward round_half_even
      switch_to_nodes 1 3
  /\ compact_split_nodes_between_workloads iter_forward
       switch_to_nodes ∅ hierarchy 1 3
     = compact_split_nodes_between_workloads iter_backward
         switch_to_nodes ∅ hierarchy 1 3.
Proof.
  apply strategies_deterministic;
    [apply enumerates_forward | apply enumerates_backward].
Defined.

(** ** The even strategy *)

Lemma round_half_even_within : rounds_within round_half_even.
Proof.
  intros n p d Hn Hp. unfold round_half_even.
  assert (0 <= n * p) by nia.
  assert (n * p <= n * d) by nia.
  pose proof (Z.div_mod (n * p) d ltac:(lia)) as Hdm.
  pose proof (Z.mod_pos_bound (n * p) d ltac:(lia)) as Hmod.
  assert (0 <= n * p / d) by (apply Z.div_pos; lia).
  assert (n * p / d <= n).
  { apply Z.div_le_upper_bound; lia. }
  destruct (Z.ltb_spec (2 * (n * p mod d)) d); [lia|].
  assert (n * p / d < n) by nia.
  destruct (Z.ltb_spec d (2 * (n * p mod d))); [lia|].
  destruct (Z.even _); lia.
Qed.

Lemma concat_sorted_perm (ls : list (list string)) :
  concat (Py.sorted <$> ls) ≡ₚ concat ls.
Proof.
  induction ls as [|l ls IH]; simpl; [done|]. by rewrite sorted_perm, IH.
Qed.

(** The nodes visited by the even strategy are the nodes of the grouping. *)
Lemma nodes_of_sorted_keys (d : odict (list string)) :
  Dict.wf d ->
  concat (nodes_of d <$> Py.sorted (Dict.keys d)) ≡ₚ Dict.all_values d.
Proof.
  intros Hd. rewrite (concat_perm _ (nodes_of d <$> Dict.keys d)).
  2:{ by rewrite sorted_perm. }
  unfold nodes_of.
  rewrite (list_fmap_compose (Dict.at_key d) Py.sorted), at_key_keys by done.
  apply concat_sorted_perm.
Qed.

Section even_facts.
Variable round_ratio : Z -> Z -> Z -> Z.
Hypothesis round_ok : rounds_within round_ratio.
Variable d : odict (list string).
Variables a b : Z.
Hypothesis a_nonneg : 0 <= a.
Hypothesis b_nonneg : 0 <= b.

Lemma split_counts_nonneg total_a total_b num_nodes a_count b_count :
  0 <= num_nodes ->
  split_counts round_ratio a b total_a total_b num_nodes
  = Ok (a_count, b_count) ->
  0 <= a_count /\ 0 <= b_count.
Proof using round_ok a_nonneg b_nonneg.
  intros Hn. unfold split_counts, proportional.
  set (la := Z.max 0 (a - total_a)). set (lb := Z.max 0 (b - total_b)).
  assert (0 <= la) by lia. assert (0 <= lb) by lia.
  destruct (Z.leb_spec num_nodes (la + lb)).
  - destruct (Z.eqb_spec la 0); [intros [= <- <-]; lia|].
    destruct (Z.eqb_spec lb 0); [intros [= <- <-]; lia|].
    destruct (Z.eqb_spec (la + lb) 0); [lia|]. simpl.
    pose proof (round_ok num_nodes la (la + lb) Hn ltac:(lia)).
    intros [= <- <-]. lia.
  - destruct (Z.eqb_spec a 0); [intros [= <- <-]; lia|].
    destruct (Z.eqb_spec b 0); [intros [= <- <-]; lia|].
    destruct (Z.eqb_spec (a + b) 0); [lia|]. simpl.
    pose proof (round_ok num_nodes a (a + b) Hn ltac:(lia)).
    intros [= <- <-]. lia.
Qed.

(** One switch, visited with counts that are not negative. *)
Lemma even_invariant_step st nodes a_count b_count :
  even_invariant st -> NoDup nodes ->
  (forall x, x ∈ ev_allocated_nodes st -> x ∉ nodes) ->
  0 <= a_count -> 0 <= b_count ->
  even_invariant
    {| ev_workload_a := ev_workload_a st ++ Py.slice_to a_count nodes;
       ev_workload_b :=
         ev_workload_b st ++ Py.slice a_count (a_count + b_count) nodes;
       ev_total_a := ev_total_a st + a_count;
       ev_total_b := ev_total_b st + b_count;
       ev_allocated_nodes :=
         ev_allocated_nodes st
         ∪ list_to_set (Py.slice_to (a_count + b_count) nodes) |}.
Proof.
  intros (HA & HB & HAB) Hnd Hfresh Ha Hb.
  pose proof (slice_to_add a_count b_count nodes Ha Hb) as Hadd.
  assert (NoDup (Py.slice_to (a_count + b_count) nodes)) as Hnd'.
  { eapply sublist_NoDup; [done | apply slice_to_sublist]. }
  rewrite Hadd in Hnd'. apply NoDup_app in Hnd' as (_ & Hdisj & _).
  unfold even_invariant. simpl. rewrite Hadd. split; [|split].
  - intros x [Hx|Hx]%elem_of_app; apply elem_of_union.
    + left. auto.
    + right. apply elem_of_list_to_set, elem_of_app. by left.
  - intros x [Hx|Hx]%elem_of_app; apply elem_of_union.
    + left. auto.
    + right. apply elem_of_list_to_set, elem_of_app. by right.
  - intros x [Hx|Hx]%elem_of_app [Hy|Hy]%elem_of_app.
    + by apply (HAB x).
    + apply (Hfresh x); [auto|]. by apply elem_of_slice in Hy.
    + apply (Hfresh x); [auto|]. by apply elem_of_slice_to in Hx.
    + by apply (Hdisj x).
Qed.

Lemma even_loop_invariant switches st st' :
  even_loop round_ratio d a b switches st = Ok st' ->
  NoDup (concat (nodes_of d <$> switches)) ->
  (forall x, x ∈ ev_allocated_nodes st ->
             x ∉ concat (nodes_of d <$> switches)) ->
  even_invariant st -> even_invariant st'.
Proof using round_ok a_nonneg b_nonneg.
  revert st. induction switches as [|switch rest IH]; intros st; simpl.
  - by intros [= ->].
  - destruct (_ && _); [by intros [= ->]|].
    destruct (split_counts _ _ _ _ _ _) as [[a_count b_count]|e] eqn:Hc;
      simpl; [|done].
    intros Hloop Hnd Hfresh Hinv.
    fold (nodes_of d switch) in *.
    apply NoDup_app in Hnd as (Hnd1 & Hnd12 & Hnd2).
    apply split_counts_nonneg in Hc as [Ha Hb]; [|apply len_nonneg].
    apply IH in Hloop; [done|done| |].
    + simpl. intros x [Hx|Hx]%elem_of_union.
      * intros Hr. apply (Hfresh x Hx), elem_of_app. by right.
      * apply elem_of_list_to_set, elem_of_slice_to in Hx. by apply Hnd12.
    + apply even_invariant_step; try done.
      intros x Hx Hn. apply (Hfresh x Hx), elem_of_app. by left.
Qed.

End even_facts.

(** What the loop gives to the workloads comes from the switches it
    visits. *)
Lemma even_loop_within (round_ratio : Z -> Z -> Z -> Z)
    (d : odict (list string)) (a b : Z) (switches : list string)
    (st st' : even_state) (x : string) :
  even_loop round_ratio d a b switches st = Ok st' ->
  x ∈ ev_workload_a st' \/ x ∈ ev_workload_b st' ->
  x ∈ ev_workload_a st \/ x ∈ ev_workload_b st
  \/ x ∈ concat (nodes_of d <$> switches).
Proof.
  revert st. induction switches as [|switch rest IH]; intros st; simpl.
  - intros [= ->]. tauto.
  - destruct (_ && _); [intros [= ->]; tauto|].
    destruct (split_counts _ _ _ _ _ _) as [[a_count b_count]|e]; simpl; [|done].
    intros Hloop Hx. fold (nodes_of d switch) in *.
    destruct (IH _ Hloop Hx) as [Hy|[Hy|Hy]]; simpl in Hy.
    + apply elem_of_app in Hy as [Hy|Hy]; [tauto|].
      right; right. apply elem_of_app. left. by apply elem_of_slice_to in Hy.
    + apply elem_of_app in Hy as [Hy|Hy]; [tauto|].
      right; right. apply elem_of_app. left. by apply elem_of_slice in Hy.
    + right; right. apply elem_of_app. by right.
Qed.

Lemma elem_of_sorted_set_iter (set_iter : gset string -> list string)
    (X : gset string) (x : string) :
  enumerates set_iter -> x ∈ Py.sorted (set_iter X) <-> x ∈ X.
Proof. intros H. by rewrite elem_of_sorted, (H X), elem_of_elements. Qed.

Lemma single_switch_within (d : odict (list string)) (a : Z) (x : string) :
  x ∈ (_handle_single_switch_case d a).1
  \/ x ∈ (_handle_single_switch_case d a).2 ->
  x ∈ Dict.all_values d.
Proof.
  unfold _handle_single_switch_case. simpl.
  intros H. assert (x ∈ concat (Py.sorted <$> Dict.values d)) as Hx.
  { destruct H as [H|H];
      [by apply elem_of_slice_to in H | by apply elem_of_slice_from in H]. }
  by rewrite concat_sorted_perm in Hx.
Qed.

Lemma single_switch_disjoint (d : odict (list string)) (a : Z) (x : string) :
  NoDup (Dict.all_values d) ->
  x ∈ (_handle_single_switch_case d a).1 ->
  x ∉ (_handle_single_switch_case d a).2.
Proof.
  unfold _handle_single_switch_case. simpl. intros Hnd.
  assert (NoDup (concat (Py.sorted <$> Dict.values d))) as Hnd'.
  { by rewrite concat_sorted_perm. }
  rewrite <-(slice_to_from a) in Hnd'.
  apply NoDup_app in Hnd' as (_ & Hdisj & _). apply Hdisj.
Qed.

(** The even strategy keeps within the grouping. *)
Lemma even_within (set_iter : gset string -> list string)
    (round_ratio : Z -> Z -> Z -> Z) (d : odict (list string)) (a b : Z)
    (A B : list string) (x : string) :
  enumerates set_iter -> Dict.wf d ->
  evenly_split_nodes_between_workloads set_iter round_ratio d a b = Ok (A, B) ->
  x ∈ A \/ x ∈ B -> x ∈ Dict.all_values d.
Proof.
  intros Hiter Hwf. unfold evenly_split_nodes_between_workloads.
  destruct (Py.len d =? 1).
  { intros [= <- <-]. apply single_switch_within. }
  cbv zeta.
  destruct (even_loop _ _ _ _ _ _) as [st|e] eqn:Hloop; simpl; [|done].
  intros [= <- <-] Hx.
  fold (nodes_of d) in *. rewrite <-(nodes_of_sorted_keys d Hwf).
  assert (x ∈ ev_workload_a st \/ x ∈ ev_workload_b st
          \/ x ∈ Py.sorted (set_iter
                 (list_to_set (concat (nodes_of d <$> Py.sorted (Dict.keys d)))
                  ∖ ev_allocated_nodes st))) as Hx'.
  { rewrite elem_of_app in Hx. tauto. }
  destruct Hx' as [Hx'|[Hx'|Hx']].
  - destruct (even_loop_within _ _ _ _ _ _ _ x Hloop) as [Hy|[Hy|Hy]];
      [tauto|..]; simpl in Hy; try done; by apply elem_of_nil in Hy.
  - destruct (even_loop_within _ _ _ _ _ _ _ x Hloop) as [Hy|[Hy|Hy]];
      [tauto|..]; simpl in Hy; try done; by apply elem_of_nil in Hy.
  - apply elem_of_sorted_set_iter in Hx'; [|done].
    apply elem_of_difference in Hx' as [Hx' _].
    by apply elem_of_list_to_set in Hx'.
Qed.

(** The even strategy gives no node to both workloads, when the grouping
    holds each node once and the requested counts are not negative. *)
Lemma even_disjoint (set_iter : gset string -> list string)
    (round_ratio : Z -> Z -> Z -> Z) (d : odict (list string)) (a b : Z)
    (A B : list string) (x : string) :
  enumerates set_iter -> rounds_within round_ratio ->
  Dict.wf d -> NoDup (Dict.all_values d) -> 0 <= a -> 0 <= b ->
  evenly_split_nodes_between_workloads set_iter round_ratio d a b = Ok (A, B) ->
  x ∈ A -> x ∉ B.
Proof.
  intros Hiter Hround Hwf Hnd Ha Hb.
  unfold evenly_split_nodes_between_workloads.
  destruct (Py.len d =? 1).
  { intros [= <- <-]. by apply single_switch_disjoint. }
  cbv zeta.
  destruct (even_loop _ _ _ _ _ _) as [st|e] eqn:Hloop; simpl; [|done].
  intros [= <- <-] HxA.
  assert (even_invariant st) as (HA & HB & HAB).
  { apply (even_loop_invariant round_ratio Hround d a b Ha Hb _ _ _ Hloop).
    - fold (nodes_of d). by rewrite nodes_of_sorted_keys.
    - simpl. intros y Hy. by apply not_elem_of_empty in Hy.
    - unfold even_invariant. simpl.
      repeat split; intros y Hy; by apply elem_of_nil in Hy. }
  intros [HxB|HxB]%elem_of_app; [by apply (HAB x)|].
  apply elem_of_sorted_set_iter in HxB; [|done].
  apply elem_of_difference in HxB as [_ HxB]. apply HxB. auto.
Qed.

(** ** The compact strategy *)

Lemma elem_of_sorted_1 x (l : list string) : x ∈ Py.sorted l -> x ∈ l.
Proof. by rewrite elem_of_sorted. Qed.

Lemma NoDup_concat_elem {A} (ls : list (list A)) (l : list A) :
  NoDup (concat ls) -> l ∈ ls -> NoDup l.
Proof.
  induction ls as [|l' ls IH]; simpl; [by intros _ ?%elem_of_nil|].
  intros (H1 & _ & H2)%NoDup_app [->|Hin]%elem_of_cons; auto.
Qed.

(** In a grouping that holds each node once, the groups of two switches
    share no node. *)
Lemma at_key_disjoint (d : odict (list string)) (k1 k2 x : string) :
  NoDup (Dict.all_values d) -> k1 <> k2 ->
  x ∈ Dict.at_key d k1 -> x ∉ Dict.at_key d k2.
Proof.
  intros Hnd Hne. induction d as [|[k v] d IH]; simpl.
  - by intros ?%elem_of_nil.
  - rewrite all_values_cons in Hnd.
    apply NoDup_app in Hnd as (_ & Hdisj & Hnd).
    unfold Dict.at_key in *. simpl.
    destruct (decide (k = k1)) as [E1|H1], (decide (k = k2)) as [E2|H2];
      simpl; [congruence| | |by apply IH].
    + intros Hx Hy. apply (Hdisj x Hx). by apply (elem_of_at_key d k2).
    + intros Hx Hy. apply (Hdisj x Hy). by apply (elem_of_at_key d k1).
Qed.

(** The loop over the other switches only adds to workload A, and only
    nodes of the switches it is given. *)
Lemma fill_from_switches_extends (d : odict (list string))
    (switches : list (string * Z)) (workload_a : list string) (needed : Z) :
  exists extra,
    (fill_from_switches d switches workload_a needed).1 = workload_a ++ extra
    /\ forall x, x ∈ extra ->
         exists switch, switch ∈ switches.*1 /\ x ∈ Dict.at_key d switch.
Proof.
  revert workload_a needed.
  induction switches as [|[switch dist] rest IH]; intros workload_a needed; simpl.
  - exists []. split; [by rewrite app_nil_r|]. by intros x ?%elem_of_nil.
  - set (nodes := Py.sorted (Dict.at_key d switch)).
    assert (exists added needed',
              (if Py.len nodes <=? needed
               then (workload_a ++ nodes, needed - Py.len nodes)
               else (workload_a ++ Py.slice_to needed nodes, 0))
              = (workload_a ++ added, needed')
              /\ forall x, x ∈ added -> x ∈ Dict.at_key d switch)
      as (added & needed' & -> & Hadded).
    { destruct (_ <=? _); eexists _, _; (split; [done|]); intros x Hx.
      - subst nodes. by apply elem_of_sorted_1 in Hx.
      - apply elem_of_slice_to in Hx. subst nodes. by apply elem_of_sorted_1 in Hx. }
    destruct (needed' <=? 0).
    + exists added. split; [done|]. intros x Hx. exists switch.
      split; [left | auto].
    + destruct (IH (workload_a ++ added) needed') as (extra & -> & Hextra).
      exists (added ++ extra). split; [by rewrite app_assoc|].
      intros x [Hx|Hx]%elem_of_app.
      * exists switch. split; [left | auto].
      * destruct (Hextra x Hx) as (sw & Hsw & Hin). exists sw.
        split; [by right | done].
Qed.

Lemma remaining_switches_others (d : odict (list string))
    (hierarchy : switch_hierarchy) (largest switch : string) :
  switch ∈ (remaining_switches d hierarchy largest).*1 ->
  switch <> largest /\ switch ∈ Dict.keys d.
Proof.
  unfold remaining_switches, Py.sorted_by_key. rewrite sorted_by_perm.
  rewrite <-list_fmap_compose. intros (k & -> & Hk)%list_elem_of_fmap.
  by apply list_elem_of_filter in Hk.
Qed.

Lemma slice_head_tail {A} (l : list A) :
  Py.slice 0 1 l ++ Py.slice_from 1 l = l.
Proof.
  rewrite <-(slice_to_from 1 l) at 3. f_equal.
  pose proof (slice_to_add 0 1 l) as H.
  change (0 + 1) with 1 in H. rewrite H by lia. done.
Qed.

Section compact_facts.
Variable set_iter : gset string -> list string.
Hypothesis iter_ok : enumerates set_iter.
Variable d : odict (list string).
Variable node_to_switch : gmap string string.
Variable hierarchy : switch_hierarchy.
Variables a b : Z.

(** The compact strategy keeps within the grouping. *)
Lemma compact_within (x : string) :
  x ∈ (compact_split_nodes_between_workloads set_iter d node_to_switch
         hierarchy a b).1
  \/ x ∈ (compact_split_nodes_between_workloads set_iter d node_to_switch
            hierarchy a b).2 ->
  x ∈ Dict.all_values d.
Proof using iter_ok.
  unfold compact_split_nodes_between_workloads.
  destruct (Py.len d =? 1); [apply single_switch_within|]. cbv zeta.
  destruct (find_largest d).1 as [largest|]; simpl;
    [|by intros [?%elem_of_nil|?%elem_of_nil]].
  destruct (negb _); simpl; [by intros [?%elem_of_nil|?%elem_of_nil]|].
  destruct (_ <? 1); simpl; [by intros [?%elem_of_nil|?%elem_of_nil]|].
  fold (nodes_of d largest).
  destruct (fill_from_switches_extends d
              (remaining_switches d hierarchy largest)
              (Py.slice 0 1 (nodes_of d largest))
              (a - Py.len (Py.slice 0 1 (nodes_of d largest))))
    as (extra & Hfill & Hextra).
  destruct (fill_from_switches _ _ _ _) as [workload_a needed].
  simpl in Hfill. subst workload_a. simpl.
  assert (forall y, y ∈ nodes_of d largest -> y ∈ Dict.all_values d) as Hl.
  { intros y Hy. apply elem_of_sorted_1 in Hy. by apply (elem_of_at_key d largest). }
  assert (forall y, y ∈ Py.slice 0 1 (nodes_of d largest) ++ extra ->
                    y ∈ Dict.all_values d) as HA.
  { intros y [Hy|Hy]%elem_of_app.
    - by apply elem_of_slice, Hl in Hy.
    - destruct (Hextra y Hy) as (sw & _ & Hin). by apply (elem_of_at_key d sw). }
  intros [Hx|Hx].
  - destruct (0 <? needed); [|by apply HA].
    apply elem_of_app in Hx as [Hx|Hx]; [by apply HA|].
    by apply elem_of_slice_to, elem_of_slice_from, elem_of_slice_from,
             Hl in Hx.
  - destruct (0 <? _).
    + apply elem_of_app in Hx as [Hx|Hx].
      * by apply elem_of_slice_to, elem_of_slice_from, Hl in Hx.
      * apply elem_of_slice_to, elem_of_sorted_set_iter in Hx; [|done].
        apply elem_of_difference in Hx as [Hx _].
        by apply elem_of_list_to_set in Hx.
    + by apply elem_of_slice_to, elem_of_slice_from, Hl in Hx.
Qed.

(** The compact strategy gives no node to both workloads, when the
    grouping holds each node once. *)
Lemma compact_disjoint (x : string) :
  NoDup (Dict.all_values d) ->
  x ∈ (compact_split_nodes_between_workloads set_iter d node_to_switch
         hierarchy a b).1 ->
  x ∉ (compact_split_nodes_between_workloads set_iter d node_to_switch
         hierarchy a b).2.
Proof using iter_ok.
  intros Hnd. unfold compact_split_nodes_between_workloads.
  destruct (Py.len d =? 1); [by apply single_switch_disjoint|]. cbv zeta.
  destruct (find_largest d).1 as [largest|]; simpl; [|by intros ?%elem_of_nil].
  destruct (negb _); simpl; [by intros ?%elem_of_nil|].
  destruct (_ <? 1); simpl; [by intros ?%elem_of_nil|].
  fold (nodes_of d largest).
  destruct (fill_from_switches_extends d
              (remaining_switches d hierarchy largest)
              (Py.slice 0 1 (nodes_of d largest))
              (a - Py.len (Py.slice 0 1 (nodes_of d largest))))
    as (extra & Hfill & Hextra).
  destruct (fill_from_switches _ _ _ _) as [workload_a needed].
  simpl in Hfill. subst workload_a. simpl.
  set (first := Py.slice 0 1 (nodes_of d largest)).
  set (others := Py.slice_from 1 (nodes_of d largest)).
  set (k := Z.min b (Py.len others)).
  assert (NoDup (nodes_of d largest)) as Hndl.
  { apply NoDup_sorted. unfold Dict.at_key.
    destruct (Dict.get d largest) as [v|] eqn:Hg; simpl; [|apply NoDup_nil_2].
    apply get_elem_of in Hg. apply (NoDup_concat_elem _ v) in Hnd; [done|].
    unfold Dict.values. apply list_elem_of_fmap. by exists (largest, v). }
  assert (forall y, y ∈ first -> y ∉ others) as Hfo.
  { rewrite <-(slice_head_tail (nodes_of d largest)) in Hndl.
    by apply NoDup_app in Hndl as (_ & ? & _). }
  assert (NoDup others) as Hndo.
  { eapply sublist_NoDup; [done | apply slice_from_sublist]. }
  assert (forall y, y ∈ Py.slice_to k others -> y ∉ Py.slice_from k others)
    as Hkk.
  { rewrite <-(slice_to_from k others) in Hndo.
    by apply NoDup_app in Hndo as (_ & ? & _). }
  assert (forall y, y ∈ extra -> y ∉ nodes_of d largest) as Hex.
  { intros y Hy Hyl. destruct (Hextra y Hy) as (sw & Hsw & Hin).
    apply remaining_switches_others in Hsw as [Hne _].
    apply elem_of_sorted_1 in Hyl. by apply (at_key_disjoint d sw largest y). }
  set (A := if 0 <? needed
            then (first ++ extra) ++ Py.slice_to needed (Py.slice_from k others)
            else first ++ extra).
  assert (forall y, y ∈ A -> y ∉ Py.slice_to k others) as HAB.
  { intros y Hy Hyb.
    assert (y ∈ first \/ y ∈ extra \/ y ∈ Py.slice_from k others) as Hc.
    { subst A. destruct (0 <? needed).
      - rewrite !elem_of_app in Hy. destruct Hy as [[?|?]|Hy]; [tauto..|].
        right; right. by apply elem_of_slice_to in Hy.
      - rewrite elem_of_app in Hy. tauto. }
    destruct Hc as [Hc|[Hc|Hc]].
    - apply (Hfo y Hc). by apply elem_of_slice_to in Hyb.
    - apply (Hex y Hc). subst others.
      by apply elem_of_slice_to, elem_of_slice_from in Hyb.
    - by apply (Hkk y). }
  intros Hx. destruct (0 <? b - _); [|by apply HAB].
  intros [Hy|Hy]%elem_of_app; [by apply (HAB x)|].
  apply elem_of_slice_to, elem_of_sorted_set_iter in Hy; [|done].
  apply elem_of_difference in Hy as [_ Hy]. apply Hy.
  apply elem_of_list_to_set, elem_of_app. by left.
Qed.

End compact_facts.

(** ** Disjointness and containment of the two workloads *)

(** A decidable statement without variables, settled by evaluation. *)
Ltac decide_closed := apply (bool_decide_unpack _); vm_compute; exact I.

(** C1, as the code has it: when a strategy returns lists of the requested
    lengths, every node of the lists is a node of the grouping, whatever the
    grouping holds, and so an allocated node when the grouping is that of an
    allocation; and for a grouping that holds each node once, no node is in
    both lists. *)
Theorem strategies_disjoint_within_groups
    (set_iter : gset string -> list string) (round_ratio : Z -> Z -> Z -> Z)
    (switch_to_nodes : odict (list string))
    (node_to_switch : gmap string string) (hierarchy : switch_hierarchy)
    (requested_a requested_b : Z) (A B : list string) :
  enumerates set_iter -> rounds_within round_ratio ->
  Dict.wf switch_to_nodes ->
  evenly_split_nodes_between_workloads set_iter round_ratio
    switch_to_nodes requested_a requested_b = Ok (A, B)
  \/ compact_split_nodes_between_workloads set_iter
       switch_to_nodes node_to_switch hierarchy requested_a requested_b
     = (A, B) ->
  Py.len A = requested_a -> Py.len B = requested_b ->
  (forall x, x ∈ A \/ x ∈ B -> x ∈ Dict.all_values switch_to_nodes)
  /\ (forall allocated topology,
        switch_to_nodes = group_nodes_by_switch allocated topology ->
        forall x, x ∈ A \/ x ∈ B -> x ∈ allocated)
  /\ (NoDup (Dict.all_values switch_to_nodes) -> forall x, x ∈ A -> x ∉ B).
Proof.
  intros Hiter Hround Hwf Hrun HA HB.
  assert (0 <= requested_a) by (rewrite <-HA; apply len_nonneg).
  assert (0 <= requested_b) by (rewrite <-HB; apply len_nonneg).
  assert (forall x, x ∈ A \/ x ∈ B -> x ∈ Dict.all_values switch_to_nodes)
    as Hin.
  { intros x. destruct Hrun as [Hrun|Hrun].
    - by apply (even_within set_iter round_ratio switch_to_nodes
                  requested_a requested_b A B x).
    - pose proof (compact_within set_iter Hiter switch_to_nodes
                    node_to_switch hierarchy requested_a requested_b x).
      by rewrite Hrun in *. }
  split; [done|]. split.
  - intros allocated topology Hgroup x Hx.
    apply (grouped_node_allocated topology allocated x).
    rewrite <-Hgroup. by apply Hin.
  - intros Hnd x. destruct Hrun as [Hrun|Hrun].
    + by apply (even_disjoint set_iter round_ratio switch_to_nodes
                  requested_a requested_b A B x).
    + pose proof (compact_disjoint set_iter Hiter switch_to_nodes
                    node_to_switch hierarchy requested_a requested_b x Hnd).
      by rewrite Hrun in *.
Qed.

Lemma strategies_disjoint_within_groups_witness :
  (forall x : string,
     x ∈ ["n1"; "n4"] \/ x ∈ ["n2"; "n3"; "n5"] ->
     x ∈ Dict.all_values [("s1", ["n3"; "n2"; "n1"]); ("s2", ["n4"; "n5"])])
  /\ (forall x : string,
        x ∈ ["n1"; "n4"] \/ x ∈ ["n2"; "n3"; "n5"] ->
        x ∈ ["n3"; "n4"; "n2"; "n1"; "n5"])
  /\ (forall x : string, x ∈ ["n1"; "n4"] -> x ∉ ["n2"; "n3"; "n5"]).
Proof.
  destruct (strategies_disjoint_within_groups iter_forward round_half_even
              [("s1", ["n3"; "n2"; "n1"]); ("s2", ["n4"; "n5"])] ∅
              {| hier_parents := None; hier_children := None |} 2 3
              ["n1"; "n4"] ["n2"; "n3"; "n5"]) as (Hin & Halloc & Hdis).
  - apply enumerates_forward.
  - apply round_half_even_within.
  - unfold Dict.wf. decide_closed.
  - left. reflexivity.
  - reflexivity.
  - reflexivity.
  - split; [exact Hin|]. split.
    + apply (Halloc ["n3"; "n4"; "n2"; "n1"; "n5"]
               (<["n1" := "s1"]> (<["n2" := "s1"]> (<["n3" := "s1"]>
                  (<["n4" := "s2"]> (<["n5" := "s2"]> ∅)))))).
      reflexivity.
    + apply Hdis. unfold Dict.all_values. decide_closed.
Defined.

(** C1, as stated, fails: a node allocated twice is grouped twice, and both
    strategies return it in both workloads, with the requested lengths. *)
Lemma duplicate_node_in_both_workloads :
  let switch_to_nodes :=
    group_nodes_by_switch ["n1"; "n1"] (<["n1" := "s1"]> ∅) in
  evenly_split_nodes_between_workloads iter_forward round_half_even
    switch_to_nodes 1 1 = Ok (["n1"], ["n1"])
  /\ compact_split_nodes_between_workloads iter_forward switch_to_nodes
       (<["n1" := "s1"]> ∅) {| hier_parents := None; hier_children := None |}
       1 1
     = (["n1"], ["n1"])
  /\ Py.len ["n1"] = 1
  /\ ~ (forall x : string, x ∈ ["n1"] -> x ∉ ["n1"]).
Proof.
  repeat split; try reflexivity.
  intros H. apply (H "n1"); left.
Qed.

(** ** Nodes missing from the topology *)

Lemma process_files_strategy (set_iter : gset string -> list string)
    (round_ratio : Z -> Z -> Z -> Z) (allocated : list string)
    (node_to_switch : gmap string string) (hierarchy : switch_hierarchy)
    (strategy : string) (a b : Z) (A B : list string) :
  process_files set_iter round_ratio allocated node_to_switch hierarchy
    strategy (Some a) (Some b) = Ok (A, B) ->
  let switch_to_nodes := group_nodes_by_switch allocated node_to_switch in
  (evenly_split_nodes_between_workloads set_iter round_ratio
     switch_to_nodes a b = Ok (A, B)
   \/ compact_split_nodes_between_workloads set_iter switch_to_nodes
        node_to_switch hierarchy a b = (A, B))
  /\ Py.len A = a /\ Py.len B = b /\ a + b <= Py.len allocated.
Proof.
  unfold process_files. destruct (Z.ltb_spec (Py.len allocated) (a + b)); [done|].
  destruct (decide (strategy = "even")).
  - destruct (evenly_split_nodes_between_workloads _ _ _ _ _)
      as [[A' B']|err]; simpl; [|done].
    destruct (Z.eqb_spec (Py.len A') a), (Z.eqb_spec (Py.len B') b);
      simpl; try done.
    intros [= <- <-]. auto.
  - simpl. destruct (compact_split_nodes_between_workloads _ _ _ _ _ _)
      as [A' B'].
    destruct (Z.eqb_spec (Py.len A') a), (Z.eqb_spec (Py.len B') b);
      simpl; try done.
    intros [= <- <-]. auto.
Qed.

(** C7, as the code has it: an allocated node absent from the topology map
    is in no group, and the script puts it in neither workload, whichever
    strategy runs: the remainder steps draw from the groups only. *)
Theorem missing_node_in_neither_workload
    (set_iter : gset string -> list string) (round_ratio : Z -> Z -> Z -> Z)
    (allocated : list string) (node_to_switch : gmap string string)
    (hierarchy : switch_hierarchy) (strategy : string)
    (requested_a requested_b : Z) (A B : list string) (node : string) :
  enumerates set_iter ->
  node ∈ allocated -> node_to_switch !! node = None ->
  process_files set_iter round_ratio allocated node_to_switch hierarchy
    strategy (Some requested_a) (Some requested_b) = Ok (A, B) ->
  (node ∉ Dict.all_values (group_nodes_by_switch allocated node_to_switch))
  /\ (node ∉ A) /\ (node ∉ B).
Proof.
  intros Hiter _ Hmiss Hrun.
  pose proof (well_grouped_group node_to_switch allocated) as Hg.
  assert (node ∉ Dict.all_values (group_nodes_by_switch allocated node_to_switch))
    as Hout.
  { intros Hin. apply (grouped_node_known _ _ _ Hg) in Hin as [sw Hsw].
    congruence. }
  apply process_files_strategy in Hrun as (Hrun & _).
  assert (forall x, x ∈ A \/ x ∈ B ->
            x ∈ Dict.all_values (group_nodes_by_switch allocated node_to_switch))
    as Hin.
  { intros x. destruct Hrun as [Hrun|Hrun].
    - apply (even_within set_iter round_ratio _ requested_a requested_b A B x);
        [done | apply Hg | done].
    - pose proof (compact_within set_iter Hiter
                    (group_nodes_by_switch allocated node_to_switch)
                    node_to_switch hierarchy requested_a requested_b x).
      by rewrite Hrun in *. }
  split; [done|]. split; intros Hx; apply Hout, Hin; auto.
Qed.

Lemma missing_node_in_neither_workload_witness :
  ("x9" ∉ Dict.all_values
            (group_nodes_by_switch ["n1"; "x9"; "n2"; "n3"]
               (<["n1" := "s1"]> (<["n2" := "s2"]> (<["n3" := "s2"]> ∅)))))
  /\ ("x9" ∉ ["n2"]) /\ ("x9" ∉ ["n1"; "n3"]).
Proof.
  apply (missing_node_in_neither_workload iter_forward round_half_even
           ["n1"; "x9"; "n2"; "n3"]
           (<["n1" := "s1"]> (<["n2" := "s2"]> (<["n3" := "s2"]> ∅)))
           {| hier_parents := None; hier_children := None |}
           "even" 1 2 ["n2"] ["n1"; "n3"] "x9").
  - apply enumerates_forward.
  - decide_closed.
  - reflexivity.
  - reflexivity.
Defined.

(** C7, as stated, fails: the allocated node [x9] is absent from the
    topology map, no placement step of either strategy gives it to
    workload A, and it is not in workload B either. *)
Lemma missing_node_not_in_workload_b :
  let hierarchy := {| hier_parents := None; hier_children := None |} in
  let topology : gmap string string := <["n1" := "s1"]> (<["n2" := "s2"]> ∅) in
  "x9" ∈ ["n1"; "n2"; "x9"]
  /\ topology !! "x9" = None
  /\ process_files iter_forward round_half_even ["n1"; "n2"; "x9"] topology
       hierarchy "compact" (Some 1) (Some 1) = Ok (["n1"], ["n2"])
  /\ process_files iter_forward round_half_even ["n1"; "n2"; "x9"] topology
       hierarchy "even" (Some 1) (Some 1) = Ok (["n2"], ["n1"])
  /\ ("x9" ∉ ["n1"]) /\ ("x9" ∉ ["n2"]).
Proof.
  repeat split; try reflexivity; decide_closed.
Qed.

(** ** Sorting by key *)

Section sort_by_key.
Context {A : Type} (key : A -> Z).

Lemma insert_by_key_sorted (x : A) (l : list A) :
  StronglySorted (fun a b => key a <= key b) l ->
  StronglySorted (fun a b => key a <= key b)
    (Py.insert_sorted (fun a b => key a <=? key b) x l).
Proof.
  induction 1 as [|y l Hl IH Hy]; simpl; [by repeat constructor|].
  destruct (Z.leb_spec (key x) (key y)).
  - constructor; [by constructor|]. constructor; [done|].
    eapply Forall_impl; [done|]. simpl. intros z Hz. lia.
  - constructor; [done|].
    rewrite (insert_sorted_perm _ x l). constructor; [lia | done].
Qed.

(** A list sorted by key is in ascending order of key. *)
Lemma sorted_by_key_sorted (l : list A) :
  StronglySorted (fun a b => key a <= key b) (Py.sorted_by_key key l).
Proof.
  induction l as [|x l IH]; [constructor|]. by apply insert_by_key_sorted.
Qed.

Lemma insert_by_key_stable (v : Z) (x : A) (l : list A) :
  filter (fun a => key a = v)
    (Py.insert_sorted (fun a b => key a <=? key b) x l)
  = filter (fun a => key a = v) (x :: l).
Proof.
  induction l as [|y l IH]; simpl; [done|].
  destruct (Z.leb_spec (key x) (key y)); [done|].
  rewrite (filter_cons _ y), IH, !filter_cons.
  destruct (decide (key y = v)), (decide (key x = v)); try done. lia.
Qed.

(** The sort is stable: the elements with a given key keep the order they
    have in the input. *)
Lemma sorted_by_key_stable (v : Z) (l : list A) :
  filter (fun a => key a = v) (Py.sorted_by_key key l)
  = filter (fun a => key a = v) l.
Proof.
  induction l as [|x l IH]; [done|].
  unfold Py.sorted_by_key, Py.sorted_by in *. simpl.
  rewrite insert_by_key_stable, !filter_cons, IH. done.
Qed.

End sort_by_key.

(** ** The largest switch *)

Lemma find_largest_snoc (d : odict (list string)) (item : string * list string) :
  find_largest (d ++ [item])
  = if (find_largest d).2 <? Py.len item.2
    then (Some item.1, Py.len item.2) else find_largest d.
Proof. unfold find_largest. by rewrite foldl_snoc. Qed.

(** The switch found holds at least as many nodes as any other, and at
    least one; none is found only when every group is empty. *)
Lemma find_largest_max (d : odict (list string)) :
  match find_largest d with
  | (None, most) =>
      most = 0 /\ forall k v, (k, v) ∈ d -> Py.len v = 0
  | (Some switch, most) =>
      0 < most
      /\ (exists v, (switch, v) ∈ d /\ Py.len v = most)
      /\ forall k v, (k, v) ∈ d -> Py.len v <= most
  end.
Proof.
  induction d as [|[k' v'] d IH] using rev_ind.
  - simpl. split; [done|]. by intros k v ?%elem_of_nil.
  - rewrite find_largest_snoc. simpl.
    destruct (find_largest d) as [[switch|] most]; simpl.
    + destruct IH as (Hpos & (v & Hv & Hlen) & Hmax).
      destruct (Z.ltb_spec most (Py.len v')).
      * split; [lia|]. split.
        -- exists v'. split; [|done]. apply elem_of_app. right. left.
        -- intros k v0 [Hin|Hin%list_elem_of_singleton]%elem_of_app.
           ++ specialize (Hmax k v0 Hin). lia.
           ++ injection Hin as -> ->. lia.
      * split; [done|]. split.
        -- exists v. split; [|done]. apply elem_of_app. by left.
        -- intros k v0 [Hin|Hin%list_elem_of_singleton]%elem_of_app.
           ++ by apply (Hmax k).
           ++ by injection Hin as -> ->.
    + destruct IH as (-> & Hzero).
      destruct (Z.ltb_spec 0 (Py.len v')).
      * split; [done|]. split.
        -- exists v'. split; [|done]. apply elem_of_app. right. left.
        -- intros k v0 [Hin|Hin%list_elem_of_singleton]%elem_of_app.
           ++ rewrite (Hzero k v0 Hin). lia.
           ++ injection Hin as -> ->. lia.
      * split; [done|].
        intros k v0 [Hin|Hin%list_elem_of_singleton]%elem_of_app.
        -- by apply (Hzero k).
        -- injection Hin as -> ->. pose proof (len_nonneg v'). lia.
Qed.

Lemma slice_head_cons {A} (x : A) (l : list A) : Py.slice 0 1 (x :: l) = [x].
Proof. done. Qed.

Lemma slice_tail_cons {A} (x : A) (l : list A) : Py.slice_from 1 (x :: l) = l.
Proof. done. Qed.

Lemma slice_to_take {A} (k : Z) (l : list A) :
  0 <= k -> Py.slice_to k l = take (Z.to_nat k) l.
Proof.
  intros Hk. unfold Py.slice_to. rewrite clamp_nonneg by done.
  destruct (Nat.le_gt_cases (Z.to_nat k) (length l)).
  - by rewrite Nat.min_l.
  - rewrite Nat.min_r by lia. rewrite firstn_all. by rewrite take_ge by lia.
Qed.

(** The loop over the other switches, entered with a count of nodes needed
    that is not negative, adds to workload A the first nodes of the switches
    it walks, in the order of the walk and each switch in sorted order, as
    many as are needed and no more. *)
Lemma fill_from_switches_takes (d : odict (list string))
    (switches : list (string * Z)) (workload_a : list string) (needed : Z) :
  0 <= needed ->
  let nearby := concat (nodes_of d <$> switches.*1) in
  fill_from_switches d switches workload_a needed
  = (workload_a ++ Py.slice_to needed nearby,
     needed - Py.len (Py.slice_to needed nearby)).
Proof.
  cbv zeta. revert workload_a needed.
  induction switches as [|[switch dist] rest IH]; intros workload_a needed Hn.
  - simpl. rewrite slice_to_take by done. rewrite take_nil, app_nil_r.
    f_equal. unfold Py.len. simpl. lia.
  - cbn [fill_from_switches]. rewrite !fmap_cons. cbn [fst concat].
    fold (nodes_of d switch).
    set (nodes := nodes_of d switch).
    set (nearby := concat (nodes_of d <$> rest.*1)).
    rewrite (slice_to_take needed (nodes ++ nearby)) by done.
    destruct (Z.leb_spec (Py.len nodes) needed) as [Hle|Hgt].
    + assert (take (Z.to_nat needed) (nodes ++ nearby)
              = nodes ++ Py.slice_to (needed - Py.len nodes) nearby) as ->.
      { rewrite slice_to_take by lia. rewrite take_app.
        rewrite take_ge by (unfold Py.len in Hle; lia).
        do 2 f_equal. unfold Py.len. lia. }
      destruct (Z.leb_spec (needed - Py.len nodes) 0) as [Hz|Hz].
      * assert (needed - Py.len nodes = 0) as Hz0 by lia. rewrite Hz0.
        assert (Py.slice_to 0 nearby = []) as -> by done.
        rewrite app_nil_r. f_equal. lia.
      * rewrite IH by lia. rewrite app_assoc. f_equal.
        rewrite len_app. subst nearby. lia.
    + simpl.
      assert (take (Z.to_nat needed) (nodes ++ nearby)
              = Py.slice_to needed nodes) as ->.
      { rewrite slice_to_take by done. rewrite take_app.
        replace (Z.to_nat needed - length nodes)%nat with 0%nat
          by (unfold Py.len in Hgt; lia).
        by rewrite take_0, app_nil_r. }
      f_equal. rewrite len_slice_to by lia. lia.
Qed.

(** C4, as the code has it: with two switch groups or more, the first node
    of workload A is the first node, in sorted order, of the largest switch.
    The other nodes of workload A are the first [requested_a - 1] nodes of
    the other switches, walked in ascending order of distance from the
    largest switch, each switch in sorted order; nodes of the largest switch
    that workload B leaves follow only when the other switches hold fewer
    than [requested_a - 1] nodes.  And when the largest switch holds at
    least [requested_a + requested_b] nodes, with [requested_a] at least 1,
    workload B is made of the [requested_b] nodes that follow the first in
    sorted order, all of the largest switch. *)
Theorem compact_largest_switch (set_iter : gset string -> list string)
    (switch_to_nodes : odict (list string))
    (node_to_switch : gmap string string) (hierarchy : switch_hierarchy)
    (requested_a requested_b : Z) :
  proper_groups switch_to_nodes -> 2 <= Py.len switch_to_nodes ->
  let split :=
    compact_split_nodes_between_workloads set_iter switch_to_nodes
      node_to_switch hierarchy requested_a requested_b in
  exists (largest : string) (nodes : list string) (first : string)
         (rest : list string),
    (find_largest switch_to_nodes).1 = Some largest
    /\ (largest, nodes) ∈ switch_to_nodes
    /\ (forall k v, (k, v) ∈ switch_to_nodes -> Py.len v <= Py.len nodes)
    /\ Py.sorted nodes = first :: rest
    /\ (exists others, split.1 = first :: others)
    /\ (let visited := remaining_switches switch_to_nodes hierarchy largest in
        let nearby := concat (nodes_of switch_to_nodes <$> visited.*1) in
        let reserve := Py.slice_from (Z.min requested_b (Py.len rest)) rest in
        StronglySorted (fun a b => a.2 <= b.2) visited
        /\ (forall item, item ∈ visited ->
              item.2 = calculate_switch_distance largest item.1 hierarchy)
        /\ visited.*1
           ≡ₚ filter (fun switch => switch <> largest)
                (Dict.keys switch_to_nodes)
        /\ (1 <= requested_a -> requested_a - 1 <= Py.len nearby ->
            split.1 = first :: Py.slice_to (requested_a - 1) nearby)
        /\ (Py.len nearby < requested_a - 1 ->
            split.1
            = first :: nearby
                ++ Py.slice_to (requested_a - 1 - Py.len nearby) reserve))
    /\ (1 <= requested_a -> 0 <= requested_b ->
        requested_a + requested_b <= Py.len nodes ->
        split.2 = Py.slice_to requested_b rest
        /\ Py.len split.2 = requested_b
        /\ forall x, x ∈ split.2 -> x ∈ nodes).
Proof.
  intros [Hwf Hall] Hlen. rewrite Forall_forall in Hall.
  pose proof (find_largest_max switch_to_nodes) as Hmax.
  destruct (find_largest switch_to_nodes) as [[largest|] most] eqn:Hfind.
  2:{ exfalso. destruct Hmax as [_ Hzero].
      destruct switch_to_nodes as [|[k v] d]; [by unfold Py.len in Hlen|].
      destruct (Hall (k, v)) as [_ Hv]; [left|].
      specialize (Hzero k v ltac:(left)).
      destruct v; [done | by unfold Py.len in Hzero]. }
  destruct Hmax as (Hpos & (nodes & Hin & Hnodes) & Hmax). subst most.
  destruct (Hall _ Hin) as [Htrue _]. simpl in Htrue.
  assert (Dict.at_key switch_to_nodes largest = nodes) as Hat.
  { unfold Dict.at_key. by rewrite (get_of_wf _ _ _ Hwf Hin). }
  destruct (Py.sorted nodes) as [|first rest] eqn:Hsorted.
  { rewrite <-(len_sorted nodes), Hsorted in Hpos. by unfold Py.len in Hpos. }
  assert (Py.len nodes = 1 + Py.len rest) as Hrest.
  { rewrite <-(len_sorted nodes), Hsorted. unfold Py.len. simpl. lia. }
  cbv zeta. unfold compact_split_nodes_between_workloads.
  destruct (Z.eqb_spec (Py.len switch_to_nodes) 1); [lia|]. cbv zeta.
  rewrite Hfind. simpl. rewrite Htrue, Hat, Hsorted. simpl.
  destruct (Z.ltb_spec (Py.len nodes) 1); [lia|].
  rewrite slice_head_cons, slice_tail_cons.
  assert (Py.len [first] = 1) as -> by done.
  exists largest, nodes, first, rest.
  split; [done|]. split; [done|]. split; [done|]. split; [done|].
  split; [|split].
  - destruct (fill_from_switches_extends switch_to_nodes
                (remaining_switches switch_to_nodes hierarchy largest)
                [first] (requested_a - 1)) as (extra & Hfill & _).
    destruct (fill_from_switches _ _ _ _) as [workload_a needed].
    simpl in Hfill. subst workload_a. simpl.
    destruct (0 <? needed); by eexists.
  - split; [apply sorted_by_key_sorted|]. split; [|split; [|split]].
    + intros item. unfold remaining_switches, Py.sorted_by_key.
      rewrite sorted_by_perm. by intros (sw & -> & _)%list_elem_of_fmap.
    + unfold remaining_switches, Py.sorted_by_key.
      rewrite sorted_by_perm, <-list_fmap_compose. simpl.
      by rewrite list_fmap_id.
    + intros Ha Hnear.
      pose proof (fill_from_switches_takes switch_to_nodes
                    (remaining_switches switch_to_nodes hierarchy largest)
                    [first] (requested_a - 1) ltac:(lia)) as Hfill.
      cbv zeta in Hfill. rewrite Hfill.
      rewrite len_slice_to by lia. rewrite Z.sub_diag. done.
    + intros Hnear.
      pose proof (fill_from_switches_takes switch_to_nodes
                    (remaining_switches switch_to_nodes hierarchy largest)
                    [first] (requested_a - 1)) as Hfill.
      cbv zeta in Hfill.
      set (nearby := concat _) in *.
      pose proof (len_nonneg nearby).
      rewrite Hfill by lia.
      assert (Py.slice_to (requested_a - 1) nearby = nearby) as ->.
      { rewrite slice_to_take by lia. apply take_ge. unfold Py.len in *. lia. }
      destruct (Z.ltb_spec 0 (requested_a - 1 - Py.len nearby)); [|lia].
      done.
  - intros Ha Hb Hab.
    destruct (fill_from_switches _ _ _ _) as [workload_a needed]. simpl.
    rewrite Z.min_l by lia. rewrite len_slice_to by lia.
    rewrite Z.sub_diag. simpl. split; [done|]. split.
    + apply len_slice_to. lia.
    + intros x Hx%elem_of_slice_to. apply elem_of_sorted. rewrite Hsorted.
      by right.
Qed.

Lemma compact_largest_switch_witness :
  compact_split_nodes_between_workloads iter_forward
    [("s1", ["n3"; "n1"; "n2"; "n4"]); ("s2", ["m1"])] ∅
    {| hier_parents := None; hier_children := None |} 3 1
  = (["n1"; "m1"; "n3"], ["n2"])
  /\ let split :=
       compact_split_nodes_between_workloads iter_forward
         [("s1", ["n3"; "n1"; "n2"; "n4"]); ("s2", ["m1"])] ∅
         {| hier_parents := None; hier_children := None |} 3 1 in
     exists (largest : string) (nodes : list string) (first : string)
            (rest : list string),
       (find_largest [("s1", ["n3"; "n1"; "n2"; "n4"]); ("s2", ["m1"])]).1
       = Some largest
       /\ (largest, nodes) ∈ [("s1", ["n3"; "n1"; "n2"; "n4"]); ("s2", ["m1"])]
       /\ (forall k v,
             (k, v) ∈ [("s1", ["n3"; "n1"; "n2"; "n4"]); ("s2", ["m1"])] ->
             Py.len v <= Py.len nodes)
       /\ Py.sorted nodes = first :: rest
       /\ (exists others, split.1 = first :: others)
       /\ (let visited :=
             remaining_switches
               [("s1", ["n3"; "n1"; "n2"; "n4"]); ("s2", ["m1"])]
               {| hier_parents := None; hier_children := None |} largest in
           let nearby :=
             concat (nodes_of [("s1", ["n3"; "n1"; "n2"; "n4"]); ("s2", ["m1"])]
                       <$> visited.*1) in
           let reserve := Py.slice_from (Z.min 1 (Py.len rest)) rest in
           StronglySorted (fun a b => a.2 <= b.2) visited
           /\ (forall item, item ∈ visited ->
                 item.2
                 = calculate_switch_distance largest item.1
                     {| hier_parents := None; hier_children := None |})
           /\ visited.*1
              ≡ₚ filter (fun switch => switch <> largest)
                   (Dict.keys
                      [("s1", ["n3"; "n1"; "n2"; "n4"]); ("s2", ["m1"])])
           /\ (1 <= 3 -> 3 - 1 <= Py.len nearby ->
               split.1 = first :: Py.slice_to (3 - 1) nearby)
           /\ (Py.len nearby < 3 - 1 ->
               split.1
               = first :: nearby ++ Py.slice_to (3 - 1 - Py.len nearby) reserve))
       /\ (1 <= 3 -> 0 <= 1 -> 3 + 1 <= Py.len nodes ->
           split.2 = Py.slice_to 1 rest
           /\ Py.len split.2 = 1
           /\ forall x, x ∈ split.2 -> x ∈ nodes).
Proof.
  split; [reflexivity|].
  apply (compact_largest_switch iter_forward
           [("s1", ["n3"; "n1"; "n2"; "n4"]); ("s2", ["m1"])] ∅
           {| hier_parents := None; hier_children := None |} 3 1).
  - split; [unfold Dict.wf; decide_closed|]. by repeat constructor.
  - by vm_compute.
Defined.

(** C4, as stated, fails: the largest switch holds four nodes, two nodes are
    requested for each workload, and workload A takes [m1] from the other
    switch. *)
Lemma compact_takes_from_other_switch :
  let switch_to_nodes :=
    [("s1", ["n1"; "n2"; "n3"; "n4"]); ("s2", ["m1"])] in
  find_largest switch_to_nodes = (Some "s1", 4)
  /\ 2 + 2 <= 4
  /\ compact_split_nodes_between_workloads iter_forward switch_to_nodes ∅
       {| hier_parents := None; hier_children := None |} 2 2
     = (["n1"; "m1"], ["n2"; "n3"])
  /\ "m1" ∈ ["n1"; "m1"]
  /\ ("m1" ∉ Dict.at_key switch_to_nodes "s1").
Proof.
  repeat split; try reflexivity; decide_closed.
Qed.

(** C10: with two switch groups and no node requested for workload A, the
    compact strategy returns two nodes in workload A: the first node of the
    largest switch, then the nodes of the next switch but the last, since the
    count of nodes still needed, -1, is used as the end of a slice. *)
Theorem compact_zero_quota_takes_other_nodes :
  compact_split_nodes_between_workloads iter_forward
    [("s1", ["n1"; "n2"; "n3"]); ("s2", ["n4"; "n5"])] ∅
    {| hier_parents := None; hier_children := None |} 0 1
  = (["n1"; "n4"], ["n2"]).
Proof. reflexivity. Qed.

(** * Further properties of the code *)

(** ** The switch distance as a metric *)

Lemma distance_values (x y : string) (hierarchy : switch_hierarchy) :
  calculate_switch_distance x y hierarchy = 0 /\ x = y
  \/ calculate_switch_distance x y hierarchy = 1 /\ x <> y
     /\ (exists p, p <> EmptyString
           /\ default ∅ (hier_parents hierarchy) !! x = Some p
           /\ default ∅ (hier_parents hierarchy) !! y = Some p)
  \/ calculate_switch_distance x y hierarchy = 2 /\ x <> y
     /\ ~ (exists p, p <> EmptyString
             /\ default ∅ (hier_parents hierarchy) !! x = Some p
             /\ default ∅ (hier_parents hierarchy) !! y = Some p).
Proof.
  unfold calculate_switch_distance.
  destruct (decide (x = y)) as [->|Hne]; [by left|]. right.
  destruct (default ∅ (hier_parents hierarchy) !! x) as [px|] eqn:Hx.
  2:{ right. split; [done|]. split; [done|]. by intros (p & _ & ? & _). }
  destruct (default ∅ (hier_parents hierarchy) !! y) as [py|] eqn:Hy.
  2:{ right. split; [done|]. split; [done|]. by intros (p & _ & _ & ?). }
  destruct (decide (px = py)) as [->|Hp].
  - rewrite bool_decide_eq_true_2 by done. destruct py as [|c py]; simpl.
    + right. split; [done|]. split; [done|].
      intros (p & Hp & [= <-] & _). done.
    + left. split; [done|]. split; [done|]. by exists (String c py).
  - rewrite bool_decide_eq_false_2 by done. rewrite andb_false_r.
    right. split; [done|]. split; [done|].
    intros (p & _ & [= <-] & [= <-]). done.
Qed.

(** The distance is 0, 1 or 2, and it is 0 for a switch and itself only. *)
Theorem distance_range_and_identity (x y : string)
    (hierarchy : switch_hierarchy) :
  (calculate_switch_distance x y hierarchy = 0
   \/ calculate_switch_distance x y hierarchy = 1
   \/ calculate_switch_distance x y hierarchy = 2)
  /\ (calculate_switch_distance x y hierarchy = 0 <-> x = y).
Proof.
  destruct (distance_values x y hierarchy)
    as [[-> ?]|[(-> & ? & _)|(-> & ? & _)]]; split; auto; split; done.
Qed.

(** The distance is 1 exactly for two distinct switches recorded with the
    same parent text, which is not empty; a hierarchy without the
    ['parents'] table, or a switch absent from it, never gives 1. *)
Theorem distance_one_iff (x y : string) (hierarchy : switch_hierarchy) :
  calculate_switch_distance x y hierarchy = 1
  <-> x <> y
      /\ exists table p,
           hier_parents hierarchy = Some table /\ p <> EmptyString
           /\ table !! x = Some p /\ table !! y = Some p.
Proof.
  split.
  - intros H1.
    destruct (distance_values x y hierarchy)
      as [[H ?]|[(_ & Hne & p & Hp & Hx & Hy)|(H & _)]]; [congruence| |congruence].
    split; [done|].
    destruct (hier_parents hierarchy) as [table|]; simpl in *; [|done].
    by exists table, p.
  - intros (Hne & table & p & Ht & Hp & Hx & Hy).
    destruct (distance_values x y hierarchy)
      as [[_ ?]|[(H & _)|(_ & _ & Hn)]]; [done|done|].
    exfalso. apply Hn. exists p. rewrite Ht. simpl. done.
Qed.

(** The distance never grows along a detour: going from [x] to [z] is at
    most as far as the longer of the two legs through any [y]. *)
Theorem distance_ultrametric (x y z : string) (hierarchy : switch_hierarchy) :
  calculate_switch_distance x z hierarchy
  <= Z.max (calculate_switch_distance x y hierarchy)
           (calculate_switch_distance y z hierarchy).
Proof.
  destruct (distance_values x y hierarchy)
    as [[Hxy ->]|[(Hxy & _ & p & Hp & Hpx & Hpy)|(Hxy & _)]].
  - lia.
  - destruct (distance_values y z hierarchy)
      as [[Hyz ->]|[(Hyz & _ & q & Hq & Hqy & Hqz)|(Hyz & _)]].
    + lia.
    + rewrite Hxy, Hyz.
      destruct (distance_values x z hierarchy)
        as [[-> _]|[(-> & _)|(_ & _ & Hn)]]; [lia..|].
      exfalso. apply Hn. exists p. split; [done|]. split; [done|]. congruence.
    + rewrite Hyz.
      destruct (distance_values x z hierarchy)
        as [[-> _]|[(-> & _)|(-> & _)]]; lia.
  - rewrite Hxy.
    destruct (distance_values x z hierarchy)
      as [[-> _]|[(-> & _)|(-> & _)]]; lia.
Qed.

(** ** The groups and the missing nodes *)

(** The grouping returned by [group_nodes_by_switch] holds each switch
    once, under a name that is not empty, with at least one node, and every
    node of a group is mapped to that switch by the topology. *)
Theorem group_result_well_formed (allocated : list string)
    (node_to_switch : gmap string string) :
  let groups := group_nodes_by_switch allocated node_to_switch in
  NoDup (Dict.keys groups)
  /\ forall switch nodes, (switch, nodes) ∈ groups ->
       switch <> EmptyString /\ nodes <> []
       /\ forall node, node ∈ nodes -> node_to_switch !! node = Some switch.
Proof.
  destruct (well_grouped_group node_to_switch allocated) as [Hwf Hall].
  split; [done|]. intros switch nodes Hin.
  rewrite Forall_forall in Hall. destruct (Hall _ Hin) as (Ht & Hne & Hnodes).
  simpl in *. split; [by destruct switch|]. split; [done|].
  by rewrite Forall_forall in Hnodes.
Qed.

Lemma at_key_setdefault_append (d : odict (list string)) (k switch x : string) :
  Dict.at_key (Dict.setdefault_append d k x) switch
  = if decide (k = switch) then Dict.at_key d switch ++ [x]
    else Dict.at_key d switch.
Proof.
  unfold Dict.at_key. induction d as [|[k' v] d IH].
  - simpl. destruct (decide (k = switch)); done.
  - cbn [Dict.setdefault_append].
    destruct (decide (k' = k)) as [->|Hk]; cbn [Dict.get].
    + destruct (decide (k = switch)); done.
    + destruct (decide (k' = switch)) as [->|Hs]; [|apply IH].
      destruct (decide (k = switch)); [congruence | done].
Qed.

Lemma group_loop_at_key (node_to_switch : gmap string string)
    (allocated : list string) (acc : odict (list string) * list string)
    (switch : string) :
  Str.truthy switch = true ->
  Dict.at_key (foldl (group_step node_to_switch) acc allocated).1 switch
  = Dict.at_key acc.1 switch
    ++ filter (fun node => node_to_switch !! node = Some switch) allocated.
Proof.
  intros Ht. revert acc.
  induction allocated as [|node l IH]; intros acc; simpl.
  - by rewrite app_nil_r.
  - rewrite IH, filter_cons. destruct acc as [d missing].
    unfold group_step. simpl.
    destruct (node_to_switch !! node) as [sw|] eqn:Hn; simpl.
    + destruct (Str.truthy sw) eqn:Hsw; simpl.
      * rewrite at_key_setdefault_append.
        destruct (decide (sw = switch)) as [->|Hne].
        -- rewrite decide_True by done. by rewrite <-app_assoc.
        -- rewrite decide_False by congruence. done.
      * rewrite decide_False; [done|]. intros [= ->]. congruence.
    + done.
Qed.

(** The group of a switch is made of the allocated nodes that the topology
    maps to it, in the order of the allocation, each as often as it is
    allocated; the switch is a key of the grouping exactly when there is
    such a node. *)
Theorem group_of_switch (allocated : list string)
    (node_to_switch : gmap string string) (switch : string) :
  switch <> EmptyString ->
  let groups := group_nodes_by_switch allocated node_to_switch in
  let mapped :=
    filter (fun node => node_to_switch !! node = Some switch) allocated in
  Dict.at_key groups switch = mapped
  /\ (switch ∈ Dict.keys groups <-> mapped <> []).
Proof.
  intros Hne. cbv zeta.
  assert (Str.truthy switch = true) as Ht by (by destruct switch).
  assert (Dict.at_key (group_nodes_by_switch allocated node_to_switch) switch
          = filter (fun node => node_to_switch !! node = Some switch) allocated)
    as Hat.
  { unfold group_nodes_by_switch, group_nodes_loop.
    by rewrite group_loop_at_key. }
  split; [done|]. rewrite <-Hat.
  destruct (well_grouped_group node_to_switch allocated) as [Hwf Hall].
  rewrite Forall_forall in Hall. split.
  - intros Hin. unfold Dict.keys in Hin.
    apply list_elem_of_fmap in Hin as ([k v] & -> & Hin).
    unfold Dict.at_key. cbn [fst]. rewrite (get_of_wf _ _ _ Hwf Hin). simpl.
    by destruct (Hall _ Hin) as (_ & ? & _).
  - intros Hnil. destruct (decide (switch ∈ Dict.keys
      (group_nodes_by_switch allocated node_to_switch))) as [|Hout]; [done|].
    exfalso. apply Hnil. unfold Dict.at_key. by rewrite get_None.
Qed.

Lemma group_of_switch_witness :
  let groups :=
    group_nodes_by_switch ["n2"; "m1"; "n1"; "n2"]
      (<["n1" := "s1"]> (<["n2" := "s1"]> (<["m1" := "s2"]> ∅))) in
  let mapped :=
    filter (fun node =>
              (<["n1" := "s1"]> (<["n2" := "s1"]> (<["m1" := "s2"]> ∅))
                 : gmap string string) !! node = Some "s1")
      ["n2"; "m1"; "n1"; "n2"] in
  Dict.at_key groups "s1" = mapped
  /\ ("s1" ∈ Dict.keys groups <-> mapped <> []).
Proof. apply group_of_switch. discriminate. Defined.

Lemma group_loop_missing (node_to_switch : gmap string string)
    (allocated : list string) (acc : odict (list string) * list string) :
  (foldl (group_step node_to_switch) acc allocated).2
  = acc.2
    ++ filter (fun node => known_to_topology node_to_switch node = false)
         allocated.
Proof.
  revert acc. induction allocated as [|node l IH]; intros acc; simpl.
  - by rewrite app_nil_r.
  - rewrite IH, filter_cons. destruct acc as [d missing].
    unfold group_step, known_to_topology. simpl.
    destruct (node_to_switch !! node) as [sw|]; simpl.
    + destruct (Str.truthy sw); simpl; [done|]. by rewrite <-app_assoc.
    + by rewrite <-app_assoc.
Qed.

(** The nodes reported missing are the allocated nodes unknown to the
    topology, in the order of the allocation; every allocated node is
    either grouped or reported missing, so the two counts add up to the
    number of allocated nodes. *)
Theorem group_missing_nodes (allocated : list string)
    (node_to_switch : gmap string string) :
  let result := group_nodes_loop allocated node_to_switch in
  result.2
  = filter (fun node => known_to_topology node_to_switch node = false)
      allocated
  /\ Py.len (Dict.all_values result.1) + Py.len result.2 = Py.len allocated.
Proof.
  cbv zeta.
  assert ((group_nodes_loop allocated node_to_switch).2
          = filter (fun node => known_to_topology node_to_switch node = false)
              allocated) as Hm.
  { unfold group_nodes_loop. by rewrite group_loop_missing. }
  split; [done|]. rewrite Hm.
  fold (group_nodes_by_switch allocated node_to_switch).
  unfold Py.len. rewrite (group_nodes_perm node_to_switch allocated).
  rewrite <-Nat2Z.inj_add. f_equal. clear Hm.
  induction allocated as [|node l IH]; [done|].
  rewrite !filter_cons.
  destruct (known_to_topology node_to_switch node); simpl; lia.
Qed.

(** ** The largest switch and the order of the other switches *)

(** The largest switch is the first, in insertion order, of the switches
    with the most nodes: the switches before it hold fewer nodes, the
    switches after it hold no more.  No switch is found only when every
    group is empty. *)
Theorem find_largest_first_among_largest (switch_to_nodes : odict (list string)) :
  match find_largest switch_to_nodes with
  | (Some switch, most) =>
      exists before nodes after,
        switch_to_nodes = before ++ (switch, nodes) :: after
        /\ Py.len nodes = most /\ 0 < most
        /\ (forall item, item ∈ before -> Py.len item.2 < most)
        /\ (forall item, item ∈ after -> Py.len item.2 <= most)
  | (None, most) =>
      most = 0 /\ forall item, item ∈ switch_to_nodes -> item.2 = []
  end.
Proof.
  induction switch_to_nodes as [|[k v] d IH] using rev_ind.
  - simpl. split; [done|]. by intros item ?%elem_of_nil.
  - rewrite find_largest_snoc. simpl.
    destruct (find_largest d) as [[switch|] most]; simpl.
    + destruct IH as (before & nodes & after & -> & Hlen & Hpos & Hb & Ha).
      destruct (Z.ltb_spec most (Py.len v)).
      * exists (before ++ (switch, nodes) :: after), v, [].
        split; [done|]. split; [done|]. split; [lia|]. split.
        -- intros item Hi. apply elem_of_app in Hi as [Hi|Hi].
           ++ specialize (Hb item Hi). lia.
           ++ apply elem_of_cons in Hi as [->|Hi]; simpl; [lia|].
              specialize (Ha item Hi). lia.
        -- by intros item ?%elem_of_nil.
      * exists before, nodes, (after ++ [(k, v)]).
        split; [by rewrite <-app_assoc|]. split; [done|]. split; [done|].
        split; [done|].
        intros item [Hi|Hi%list_elem_of_singleton]%elem_of_app; [auto|].
        by subst item.
    + destruct IH as (-> & Hempty).
      destruct (Z.ltb_spec 0 (Py.len v)).
      * exists d, v, []. split; [done|]. split; [done|]. split; [done|]. split.
        -- intros item Hi. by rewrite (Hempty item Hi).
        -- by intros item ?%elem_of_nil.
      * split; [done|].
        intros item [Hi|Hi%list_elem_of_singleton]%elem_of_app; [auto|].
        subst item. simpl. destruct v; [done|]. unfold Py.len in *. simpl in *. lia.
Qed.

Lemma filter_fmap {A B} (f : A -> B) (P : B -> Prop)
    `{!forall y, Decision (P y)} (l : list A) :
  filter P (f <$> l) = f <$> filter (fun x => P (f x)) l.
Proof.
  induction l as [|x l IH]; [done|].
  rewrite fmap_cons, !filter_cons, IH.
  by destruct (decide (P (f x))).
Qed.

(** The compact strategy visits the other switches nearest first: the
    list it walks holds every other switch of the grouping with its
    distance from the largest switch, in ascending order of distance, and
    switches at the same distance come in the insertion order of the
    grouping. *)
Theorem remaining_switches_nearest_first (switch_to_nodes : odict (list string))
    (hierarchy : switch_hierarchy) (largest : string) :
  let others :=
    filter (fun switch => switch <> largest) (Dict.keys switch_to_nodes) in
  let visited := remaining_switches switch_to_nodes hierarchy largest in
  StronglySorted (fun a b => a.2 <= b.2) visited
  /\ (forall item, item ∈ visited ->
        item.2 = calculate_switch_distance largest item.1 hierarchy)
  /\ visited.*1 ≡ₚ others
  /\ (forall dist,
        (filter (fun item => item.2 = dist) visited).*1
        = filter (fun switch =>
                    calculate_switch_distance largest switch hierarchy = dist)
            others).
Proof.
  cbv zeta. unfold remaining_switches. split; [|split; [|split]].
  - apply sorted_by_key_sorted.
  - intros item. unfold Py.sorted_by_key. rewrite sorted_by_perm.
    by intros (sw & -> & _)%list_elem_of_fmap.
  - unfold Py.sorted_by_key. rewrite sorted_by_perm.
    rewrite <-list_fmap_compose. simpl.
    by rewrite list_fmap_id.
  - intros dist. rewrite (sorted_by_key_stable snd dist).
    rewrite (filter_fmap _ (fun item : string * Z => item.2 = dist)).
    rewrite <-list_fmap_compose. simpl. by rewrite list_fmap_id.
Qed.

(** ** The compact strategy and the requested counts *)

Lemma len_slice_to_le {A} (k : Z) (l : list A) :
  0 <= k -> Py.len (Py.slice_to k l) <= k.
Proof.
  intros Hk. unfold Py.len, Py.slice_to. rewrite clamp_nonneg by done.
  rewrite length_take. lia.
Qed.

Lemma len_slice_to_short {A} (k : Z) (l : list A) :
  Py.len (Py.slice_to k l) <= Py.len l.
Proof.
  unfold Py.len, Py.slice_to. rewrite length_take. lia.
Qed.

(** The loop over the other switches, entered with a count of nodes needed
    that is not negative, adds to workload A exactly as many nodes as the
    count goes down, and leaves a count that is not negative. *)
Lemma fill_from_switches_count (d : odict (list string))
    (switches : list (string * Z)) (workload_a : list string) (needed : Z) :
  0 <= needed ->
  0 <= (fill_from_switches d switches workload_a needed).2
  /\ Py.len (fill_from_switches d switches workload_a needed).1
     + (fill_from_switches d switches workload_a needed).2
     = Py.len workload_a + needed.
Proof.
  revert workload_a needed.
  induction switches as [|[switch dist] rest IH]; intros workload_a needed Hn;
    simpl; [done|].
  set (nodes := Py.sorted (Dict.at_key d switch)).
  destruct (Z.leb_spec (Py.len nodes) needed).
  - destruct (Z.leb_spec (needed - Py.len nodes) 0); simpl.
    + rewrite len_app. lia.
    + destruct (IH (workload_a ++ nodes) (needed - Py.len nodes)) as [H1 H2];
        [lia|]. split; [done|]. rewrite H2, len_app. lia.
  - simpl. rewrite len_app, len_slice_to by lia. lia.
Qed.

(** With two switch groups or more (or none), at least one node requested
    for workload A and a count for workload B that is not negative, the
    compact strategy never returns more nodes than requested, in either
    workload. *)
Theorem compact_within_quotas (set_iter : gset string -> list string)
    (switch_to_nodes : odict (list string))
    (node_to_switch : gmap string string) (hierarchy : switch_hierarchy)
    (requested_a requested_b : Z) :
  Py.len switch_to_nodes <> 1 -> 1 <= requested_a -> 0 <= requested_b ->
  let split :=
    compact_split_nodes_between_workloads set_iter switch_to_nodes
      node_to_switch hierarchy requested_a requested_b in
  Py.len split.1 <= requested_a /\ Py.len split.2 <= requested_b.
Proof.
  intros Hlen Ha Hb. cbv zeta. unfold compact_split_nodes_between_workloads.
  destruct (Z.eqb_spec (Py.len switch_to_nodes) 1); [done|]. cbv zeta.
  destruct (find_largest switch_to_nodes).1 as [largest|]; simpl;
    [|unfold Py.len; simpl; lia].
  destruct (negb _); simpl; [unfold Py.len; simpl; lia|].
  destruct (Z.ltb_spec (Py.len (Dict.at_key switch_to_nodes largest)) 1);
    simpl; [unfold Py.len; simpl; lia|].
  fold (nodes_of switch_to_nodes largest).
  assert (1 <= Py.len (nodes_of switch_to_nodes largest)) as Hl.
  { unfold nodes_of. by rewrite len_sorted. }
  destruct (nodes_of switch_to_nodes largest) as [|first rest] eqn:Hnodes.
  { unfold Py.len in Hl. simpl in Hl. lia. }
  rewrite slice_head_cons, slice_tail_cons.
  destruct (fill_from_switches_count switch_to_nodes
              (remaining_switches switch_to_nodes hierarchy largest)
              [first] (requested_a - Py.len [first])) as [Hn Hsum].
  { unfold Py.len. simpl. lia. }
  destruct (fill_from_switches _ _ _ _) as [workload_a needed].
  simpl in *. change (Py.len [first]) with 1 in Hsum.
  set (k := Z.min requested_b (Py.len rest)).
  assert (0 <= k) by (pose proof (len_nonneg rest); lia).
  pose proof (len_slice_to_le k rest ltac:(done)).
  split.
  - destruct (Z.ltb_spec 0 needed); [|lia].
    rewrite len_app.
    pose proof (len_slice_to_le needed (Py.slice_from k rest) ltac:(lia)). lia.
  - destruct (Z.ltb_spec 0 (requested_b - Py.len (Py.slice_to k rest))); [|lia].
    rewrite len_app.
    match goal with
    | |- context [Py.slice_to ?n (Py.sorted ?u)] =>
        pose proof (len_slice_to_le n (Py.sorted u) ltac:(lia))
    end.
    lia.
Qed.

Lemma compact_within_quotas_witness :
  let split :=
    compact_split_nodes_between_workloads iter_forward
      [("s1", ["n1"; "n2"]); ("s2", ["m1"])] ∅
      {| hier_parents := None; hier_children := None |} 5 4 in
  Py.len split.1 <= 5 /\ Py.len split.2 <= 4.
Proof.
  apply (compact_within_quotas iter_forward
           [("s1", ["n1"; "n2"]); ("s2", ["m1"])] ∅
           {| hier_parents := None; hier_children := None |} 5 4);
    by vm_compute.
Defined.

(** ** The even strategy places every node *)

Section even_covers.
Variable round_ratio : Z -> Z -> Z -> Z.
Hypothesis round_ok : rounds_within round_ratio.
Variable d : odict (list string).
Variables a b : Z.
Hypothesis a_nonneg : 0 <= a.
Hypothesis b_nonneg : 0 <= b.

(** The loop records as allocated exactly the nodes it has given to a
    workload, and gives no node twice. *)
Lemma even_loop_covers switches st st' :
  even_loop round_ratio d a b switches st = Ok st' ->
  NoDup (concat (nodes_of d <$> switches)) ->
  (forall x, x ∈ ev_allocated_nodes st ->
             x ∉ concat (nodes_of d <$> switches)) ->
  even_invariant st ->
  NoDup (ev_workload_a st) -> NoDup (ev_workload_b st) ->
  (forall x, x ∈ ev_allocated_nodes st ->
             x ∈ ev_workload_a st \/ x ∈ ev_workload_b st) ->
  NoDup (ev_workload_a st') /\ NoDup (ev_workload_b st')
  /\ (forall x, x ∈ ev_allocated_nodes st' ->
                x ∈ ev_workload_a st' \/ x ∈ ev_workload_b st').
Proof using round_ok a_nonneg b_nonneg.
  revert st. induction switches as [|switch rest IH]; intros st; simpl.
  - intros [= ->]. auto.
  - destruct (_ && _); [intros [= ->]; auto|].
    destruct (split_counts _ _ _ _ _ _) as [[a_count b_count]|e] eqn:Hc;
      simpl; [|done].
    intros Hloop Hnd Hfresh Hinv HndA HndB Hcov.
    fold (nodes_of d switch) in *.
    apply NoDup_app in Hnd as (Hnd1 & Hnd12 & Hnd2).
    apply (split_counts_nonneg round_ratio round_ok a b a_nonneg b_nonneg)
      in Hc as [Ha Hb]; [|apply len_nonneg].
    assert (forall x, x ∈ ev_allocated_nodes st -> x ∉ nodes_of d switch)
      as Hfresh1.
    { intros x Hx Hn. apply (Hfresh x Hx), elem_of_app. by left. }
    pose proof (slice_to_add a_count b_count (nodes_of d switch) Ha Hb) as Hadd.
    assert (NoDup (Py.slice_to (a_count + b_count) (nodes_of d switch))) as Hnds.
    { eapply sublist_NoDup; [exact Hnd1 | apply slice_to_sublist]. }
    rewrite Hadd in Hnds. apply NoDup_app in Hnds as (HndsA & _ & HndsB).
    destruct Hinv as (HA & HB & HAB).
    apply IH in Hloop; [done|done| | | | |]; simpl.
    + intros x [Hx|Hx]%elem_of_union.
      * intros Hr. apply (Hfresh x Hx), elem_of_app. by right.
      * apply elem_of_list_to_set, elem_of_slice_to in Hx. by apply Hnd12.
    + by apply even_invariant_step.
    + apply NoDup_app. split; [done|]. split; [|done].
      intros x Hx Hy%elem_of_slice_to. by apply (Hfresh1 x (HA x Hx)).
    + apply NoDup_app. split; [done|]. split; [|done].
      intros x Hx Hy%elem_of_slice. by apply (Hfresh1 x (HB x Hx)).
    + intros x [Hx|Hx]%elem_of_union.
      * destruct (Hcov x Hx); [left | right]; apply elem_of_app; by left.
      * apply elem_of_list_to_set in Hx. rewrite Hadd in Hx.
        apply elem_of_app in Hx as [Hx|Hx]; [left | right];
          apply elem_of_app; by right.
Qed.

End even_covers.

(** The lists returned by the even strategy are a rearrangement of the nodes
    of the grouping. *)
Lemma even_partition (set_iter : gset string -> list string)
    (round_ratio : Z -> Z -> Z -> Z) (switch_to_nodes : odict (list string))
    (requested_a requested_b : Z) (A B : list string) :
  enumerates set_iter -> rounds_within round_ratio ->
  Dict.wf switch_to_nodes -> NoDup (Dict.all_values switch_to_nodes) ->
  0 <= requested_a -> 0 <= requested_b ->
  evenly_split_nodes_between_workloads set_iter round_ratio
    switch_to_nodes requested_a requested_b = Ok (A, B) ->
  A ++ B ≡ₚ Dict.all_values switch_to_nodes.
Proof.
  intros Hiter Hround Hwf Hnd Ha Hb Hrun.
  pose proof (fun x => even_disjoint set_iter round_ratio switch_to_nodes
                requested_a requested_b A B x Hiter Hround Hwf Hnd Ha Hb Hrun)
    as Hdisj.
  pose proof (fun x => even_within set_iter round_ratio switch_to_nodes
                requested_a requested_b A B x Hiter Hwf Hrun) as Hin.
  revert Hrun. unfold evenly_split_nodes_between_workloads.
  destruct (Py.len switch_to_nodes =? 1).
  { intros [= <- <-]. unfold _handle_single_switch_case. simpl.
    by rewrite slice_to_from, concat_sorted_perm. }
  cbv zeta.
  destruct (even_loop _ _ _ _ _ _) as [st|e] eqn:Hloop; simpl; [|done].
  fold (nodes_of switch_to_nodes) in *.
  set (all_nodes :=
         concat (nodes_of switch_to_nodes <$> Py.sorted (Dict.keys switch_to_nodes)))
    in *.
  assert (all_nodes ≡ₚ Dict.all_values switch_to_nodes) as Hall
    by (by apply nodes_of_sorted_keys).
  assert (even_invariant st) as (HA & HB & HAB).
  { apply (even_loop_invariant round_ratio Hround switch_to_nodes
             requested_a requested_b Ha Hb _ _ _ Hloop).
    - fold all_nodes. by rewrite Hall.
    - simpl. intros y Hy. by apply not_elem_of_empty in Hy.
    - unfold even_invariant. simpl.
      repeat split; intros y Hy; by apply elem_of_nil in Hy. }
  destruct (even_loop_covers round_ratio Hround switch_to_nodes
              requested_a requested_b Ha Hb _ _ _ Hloop)
    as (HndA & HndB & Hcov); simpl.
  { fold all_nodes. by rewrite Hall. }
  { intros y Hy. by apply not_elem_of_empty in Hy. }
  { unfold even_invariant. simpl.
    repeat split; intros y Hy; by apply elem_of_nil in Hy. }
  { apply NoDup_nil_2. }
  { apply NoDup_nil_2. }
  { intros y Hy. by apply not_elem_of_empty in Hy. }
  intros [= <- <-].
  set (U := Py.sorted (set_iter (list_to_set all_nodes ∖ ev_allocated_nodes st)))
    in *.
  assert (forall x, x ∈ U <-> x ∈ all_nodes /\ x ∉ ev_allocated_nodes st) as HU.
  { intros x. unfold U. rewrite elem_of_sorted_set_iter by done.
    by rewrite elem_of_difference, elem_of_list_to_set. }
  apply NoDup_Permutation; [|done|].
  - apply NoDup_app. split; [done|]. split; [apply Hdisj|].
    apply NoDup_app. split; [done|]. split.
    + intros x Hx [_ Hn]%HU. apply Hn. auto.
    + unfold U. rewrite sorted_perm, (Hiter _). apply NoDup_elements.
  - intros x. split.
    + rewrite elem_of_app. apply Hin.
    + intros Hx. rewrite <-Hall in Hx.
      destruct (decide (x ∈ ev_allocated_nodes st)) as [Hal|Hal].
      * destruct (Hcov x Hal); rewrite !elem_of_app; auto.
      * rewrite !elem_of_app. right. right. apply HU. auto.
Qed.

(** For a grouping that holds each node once and requested counts that are
    not negative, the two lists returned by the even strategy hold, between
    them, every node of the grouping exactly once: whatever the loop leaves
    is appended to workload B. *)
Theorem even_places_every_node (set_iter : gset string -> list string)
    (round_ratio : Z -> Z -> Z -> Z) (switch_to_nodes : odict (list string))
    (requested_a requested_b : Z) (A B : list string) :
  enumerates set_iter -> rounds_within round_ratio ->
  Dict.wf switch_to_nodes -> NoDup (Dict.all_values switch_to_nodes) ->
  0 <= requested_a -> 0 <= requested_b ->
  evenly_split_nodes_between_workloads set_iter round_ratio
    switch_to_nodes requested_a requested_b = Ok (A, B) ->
  A ++ B ≡ₚ Dict.all_values switch_to_nodes.
Proof. apply even_partition. Qed.

Lemma even_places_every_node_witness :
  ["n1"; "n4"] ++ ["n2"; "n3"; "n5"]
  ≡ₚ Dict.all_values [("s1", ["n3"; "n2"; "n1"]); ("s2", ["n4"; "n5"])].
Proof.
  apply (even_places_every_node iter_forward round_half_even
           [("s1", ["n3"; "n2"; "n1"]); ("s2", ["n4"; "n5"])] 2 3).
  - apply enumerates_forward.
  - apply round_half_even_within.
  - unfold Dict.wf. decide_closed.
  - unfold Dict.all_values. decide_closed.
  - lia.
  - lia.
  - reflexivity.
Defined.

(** ** The script, end to end *)

Lemma group_NoDup (allocated : list string) (node_to_switch : gmap string string) :
  NoDup allocated ->
  NoDup (Dict.all_values (group_nodes_by_switch allocated node_to_switch)).
Proof.
  intros Hnd. rewrite group_nodes_perm. by apply NoDup_filter.
Qed.

(** When the allocation names each node once and the script succeeds, the
    two lists it writes have the requested lengths, which are not negative
    and add up to no more than the number of allocated nodes; no node is in
    both lists, and every node of the lists is an allocated node that the
    topology knows. *)
Theorem process_files_splits_the_allocation
    (set_iter : gset string -> list string) (round_ratio : Z -> Z -> Z -> Z)
    (allocated : list string) (node_to_switch : gmap string string)
    (hierarchy : switch_hierarchy) (strategy : string)
    (requested_a requested_b : Z) (A B : list string) :
  enumerates set_iter -> rounds_within round_ratio -> NoDup allocated ->
  process_files set_iter round_ratio allocated node_to_switch hierarchy
    strategy (Some requested_a) (Some requested_b) = Ok (A, B) ->
  Py.len A = requested_a /\ Py.len B = requested_b
  /\ 0 <= requested_a /\ 0 <= requested_b
  /\ requested_a + requested_b <= Py.len allocated
  /\ (forall x, x ∈ A -> x ∉ B)
  /\ (forall x, x ∈ A \/ x ∈ B ->
        x ∈ allocated /\ is_Some (node_to_switch !! x)).
Proof.
  intros Hiter Hround Hnd Hrun.
  apply process_files_strategy in Hrun as (Hrun & HA & HB & Hsum).
  pose proof (well_grouped_group node_to_switch allocated) as Hg.
  pose proof (group_NoDup allocated node_to_switch Hnd) as Hndg.
  set (groups := group_nodes_by_switch allocated node_to_switch) in *.
  assert (0 <= requested_a) as Ha by (rewrite <-HA; apply len_nonneg).
  assert (0 <= requested_b) as Hb by (rewrite <-HB; apply len_nonneg).
  assert (forall x, x ∈ A \/ x ∈ B -> x ∈ Dict.all_values groups) as Hin.
  { intros x. destruct Hrun as [Hrun|Hrun].
    - apply (even_within set_iter round_ratio _ requested_a requested_b A B x);
        [done | apply Hg | done].
    - pose proof (compact_within set_iter Hiter groups node_to_switch
                    hierarchy requested_a requested_b x).
      by rewrite Hrun in *. }
  repeat split; try done.
  - intros x. destruct Hrun as [Hrun|Hrun].
    + apply (even_disjoint set_iter round_ratio groups requested_a requested_b
               A B x); try done. apply Hg.
    + pose proof (compact_disjoint set_iter Hiter groups node_to_switch
                    hierarchy requested_a requested_b x Hndg).
      by rewrite Hrun in *.
  - by apply (grouped_node_allocated node_to_switch), Hin.
  - by apply (grouped_node_known node_to_switch groups), Hin.
Qed.

Lemma process_files_splits_the_allocation_witness :
  Py.len ["n2"] = 1 /\ Py.len ["n1"; "n3"] = 2
  /\ 0 <= 1 /\ 0 <= 2
  /\ 1 + 2 <= Py.len ["n1"; "x9"; "n2"; "n3"]
  /\ (forall x : string, x ∈ ["n2"] -> x ∉ ["n1"; "n3"])
  /\ (forall x : string, x ∈ ["n2"] \/ x ∈ ["n1"; "n3"] ->
        x ∈ ["n1"; "x9"; "n2"; "n3"]
        /\ is_Some ((<["n1" := "s1"]> (<["n2" := "s2"]> (<["n3" := "s2"]> ∅))
                       : gmap string string) !! x)).
Proof.
  apply (process_files_splits_the_allocation iter_forward round_half_even
           ["n1"; "x9"; "n2"; "n3"]
           (<["n1" := "s1"]> (<["n2" := "s2"]> (<["n3" := "s2"]> ∅)))
           {| hier_parents := None; hier_children := None |}
           "even" 1 2 ["n2"] ["n1"; "n3"]).
  - apply enumerates_forward.
  - apply round_half_even_within.
  - decide_closed.
  - reflexivity.
Defined.

(** The even strategy leaves no node out, so the script succeeds with it
    only when the two requested counts add up to the number of allocated
    nodes that the topology knows; the two lists then hold exactly these
    nodes. *)
Theorem process_files_even_uses_every_known_node
    (set_iter : gset string -> list string) (round_ratio : Z -> Z -> Z -> Z)
    (allocated : list string) (node_to_switch : gmap string string)
    (hierarchy : switch_hierarchy)
    (requested_a requested_b : Z) (A B : list string) :
  enumerates set_iter -> rounds_within round_ratio -> NoDup allocated ->
  process_files set_iter round_ratio allocated node_to_switch hierarchy
    "even" (Some requested_a) (Some requested_b) = Ok (A, B) ->
  let known :=
    filter (fun node => known_to_topology node_to_switch node = true)
      allocated in
  A ++ B ≡ₚ known /\ requested_a + requested_b = Py.len known.
Proof.
  intros Hiter Hround Hnd Hrun. cbv zeta.
  pose proof (process_files_strategy _ _ _ _ _ _ _ _ _ _ Hrun)
    as (_ & HA & HB & _).
  assert (evenly_split_nodes_between_workloads set_iter round_ratio
            (group_nodes_by_switch allocated node_to_switch)
            requested_a requested_b = Ok (A, B)) as Heven.
  { revert Hrun. unfold process_files.
    destruct (_ <? _); [done|]. rewrite decide_True by done.
    destruct (evenly_split_nodes_between_workloads _ _ _ _ _)
      as [[A' B']|err]; simpl; [|done].
    destruct (_ || _); [done|]. by intros [= <- <-]. }
  assert (A ++ B ≡ₚ filter (fun node => known_to_topology node_to_switch node = true)
                      allocated) as Hp.
  { rewrite <-(group_nodes_perm node_to_switch allocated).
    apply (even_partition set_iter round_ratio _ requested_a requested_b);
      try done.
    - apply well_grouped_group.
    - by apply group_NoDup.
    - rewrite <-HA. apply len_nonneg.
    - rewrite <-HB. apply len_nonneg. }
  split; [done|]. rewrite <-HA, <-HB, <-len_app. unfold Py.len. by rewrite Hp.
Qed.

Lemma process_files_even_uses_every_known_node_witness :
  let known :=
    filter (fun node =>
              known_to_topology
                (<["n1" := "s1"]> (<["n2" := "s2"]> (<["n3" := "s2"]> ∅)))
                node = true)
      ["n1"; "x9"; "n2"; "n3"] in
  ["n2"] ++ ["n1"; "n3"] ≡ₚ known /\ 1 + 2 = Py.len known.
Proof.
  apply (process_files_even_uses_every_known_node iter_forward round_half_even
           ["n1"; "x9"; "n2"; "n3"]
           (<["n1" := "s1"]> (<["n2" := "s2"]> (<["n3" := "s2"]> ∅)))
           {| hier_parents := None; hier_children := None |} 1 2).
  - apply enumerates_forward.
  - apply round_half_even_within.
  - decide_closed.
  - reflexivity.
Defined.

(** ** More on the hostlist expansion *)

Lemma expand_specs_all_ok (specs : list string) (nss : list (list string))
    (expanded : list string) :
  Forall2 (fun spec names => expand_spec spec = Ok names) specs nss ->
  expand_specs specs expanded = Ok (expanded ++ concat nss).
Proof.
  intros H. revert expanded.
  induction H as [|spec names specs nss Hs _ IH]; intros expanded; simpl.
  - by rewrite app_nil_r.
  - rewrite Hs. simpl. by rewrite IH, app_assoc.
Qed.

(** The expansion keeps the order of the hostlist: it is the expansions of
    the comma-separated specifications, one after the other from left to
    right. *)
Theorem expand_nodes_in_order (raw_string part : string)
    (nss : list (list string)) :
  nodes_part raw_string = Ok part ->
  Forall2 (fun spec names => expand_spec spec = Ok names)
    (Str.split_char "," part) nss ->
  expand_nodes raw_string = Ok (concat nss).
Proof.
  intros Hp Hall. unfold expand_nodes. rewrite Hp. simpl.
  by rewrite (expand_specs_all_ok _ nss).
Qed.

Lemma expand_nodes_in_order_witness :
  expand_nodes "Nodes=a1,n[2-3],b[07] rest"
  = Ok (concat [["a1"]; ["n2"; "n3"]; ["b07"]]).
Proof.
  apply (expand_nodes_in_order _ "a1,n[2-3],b[07]").
  - reflexivity.
  - repeat constructor.
Defined.

Lemma cons_head_without (c x : ascii) (pieces : list string) :
  x <> c ->
  Forall (fun p => Str.contains c p = false) pieces ->
  Forall (fun p => Str.contains c p = false) (Str.cons_head x pieces).
Proof.
  intros Hx Hall. destruct Hall as [|p ps Hp Hps]; simpl.
  - constructor; [|done]. simpl. by rewrite bool_decide_eq_false_2.
  - constructor; [|done]. simpl. by rewrite bool_decide_eq_false_2.
Qed.

(** The pieces of a split hold no character that the text does not
    hold. *)
Lemma split_char_pieces_without (c sep : ascii) (s : string) :
  Str.contains c s = false ->
  Forall (fun p => Str.contains c p = false) (Str.split_char sep s).
Proof.
  induction s as [|x s IH]; simpl; [by repeat constructor|].
  intros [Hx Hs]%orb_false_elim. apply bool_decide_eq_false in Hx.
  destruct (bool_decide (x = sep)).
  - constructor; [done | auto].
  - apply cons_head_without; auto.
Qed.

Lemma expand_specs_plain (specs expanded : list string) :
  Forall (fun spec => Str.contains "[" spec = false) specs ->
  expand_specs specs expanded = Ok (expanded ++ specs).
Proof.
  intros Hall. revert expanded.
  induction Hall as [|spec specs Hs _ IH]; intros expanded; simpl.
  - by rewrite app_nil_r.
  - unfold expand_spec at 1. rewrite Hs. simpl. rewrite IH.
    by rewrite <-app_assoc.
Qed.

(** A hostlist without an opening bracket expands to its comma-separated
    tokens as they are, in order; an empty token, as between two commas
    that follow each other, is kept as an empty name. *)
Theorem expand_nodes_plain_tokens (raw_string part : string) :
  nodes_part raw_string = Ok part ->
  Str.contains "[" part = false ->
  expand_nodes raw_string = Ok (Str.split_char "," part).
Proof.
  intros Hp Hplain. unfold expand_nodes. rewrite Hp. simpl.
  rewrite expand_specs_plain; [done|].
  by apply split_char_pieces_without.
Qed.

Lemma expand_nodes_plain_tokens_witness :
  expand_nodes "Nodes=a1,,b2" = Ok (Str.split_char "," "a1,,b2").
Proof. apply expand_nodes_plain_tokens; reflexivity. Defined.

Lemma range_lookup (start stop : Z) (i : nat) :
  (i < Z.to_nat (stop - start))%nat ->
  Py.range start stop !! i = Some (start + Z.of_nat i).
Proof.
  intros Hi. unfold Py.range. rewrite list_lookup_fmap.
  by rewrite lookup_seq_lt.
Qed.

Lemma len_range (start stop : Z) :
  start <= stop -> Py.len (Py.range start stop) = stop - start.
Proof.
  intros H. unfold Py.len, Py.range. rewrite length_fmap, length_seq. lia.
Qed.

(** A bracketed range [prefix[start-end]] with numeric bounds, the end not
    below the start, stands for [end - start + 1] names: the prefix followed
    by each number from the start to the end, in ascending order, written
    with the format of width [len(start)]. *)
Theorem expand_spec_ascending_range (prefix start_str end_str : string)
    (start end_ : Z) :
  Str.contains "[" prefix = false ->
  plain_bound start_str -> plain_bound end_str ->
  Str.int start_str = Ok start -> Str.int end_str = Ok end_ ->
  start <= end_ ->
  exists names,
    expand_spec (range_spec prefix start_str end_str) = Ok names
    /\ Py.len names = end_ - start + 1
    /\ forall i : nat, Z.of_nat i <= end_ - start ->
         names !! i
         = Some (prefix
                 +:+ Str.format_d (start + Z.of_nat i)
                       (Z.of_nat (String.length start_str))).
Proof.
  intros Hp Hs He H1 H2 Hle.
  rewrite (expand_range_spec _ _ _ Hp Hs He), H1, H2. simpl.
  eexists. split; [done|]. split.
  - unfold Py.len. rewrite length_fmap. fold (Py.len (Py.range start (end_ + 1))).
    rewrite len_range; lia.
  - intros i Hi. rewrite list_lookup_fmap, range_lookup by lia. done.
Qed.

Lemma expand_spec_ascending_range_witness :
  exists names,
    expand_spec (range_spec "hgx-" "008" "011") = Ok names
    /\ Py.len names = 11 - 8 + 1
    /\ forall i : nat, Z.of_nat i <= 11 - 8 ->
         names !! i
         = Some ("hgx-"
                 +:+ Str.format_d (8 + Z.of_nat i)
                       (Z.of_nat (String.length "008"))).
Proof.
  apply (expand_spec_ascending_range "hgx-" "008" "011" 8 11);
    try reflexivity; try (repeat split; reflexivity). lia.
Defined.

(** A bracketed single value [prefix[n]] stands for one name: the prefix
    followed by the number, written with the format of width [len(n)]. *)
Theorem expand_spec_single_value (prefix value_str : string) (value : Z) :
  Str.contains "[" prefix = false ->
  plain_bound value_str ->
  Str.int value_str = Ok value ->
  expand_spec (prefix +:+ "[" +:+ value_str +:+ "]")
  = Ok [prefix +:+ Str.format_d value (Z.of_nat (String.length value_str))].
Proof.
  intros Hp (Hv1 & Hv2 & Hv3) Hint. unfold expand_spec.
  assert (Str.contains "[" (prefix +:+ "[" +:+ value_str +:+ "]") = true) as ->.
  { rewrite contains_append. simpl. by rewrite orb_true_r. }
  assert (Str.contains "]" (prefix +:+ "[" +:+ value_str +:+ "]") = true) as ->.
  { rewrite !contains_append. simpl. by rewrite !orb_true_r. }
  simpl.
  change ("[" +:+ value_str +:+ "]") with (String "[" (value_str +:+ "]")).
  rewrite split_char_at by done.
  rewrite split_char_without.
  2:{ rewrite contains_append. simpl. by rewrite Hv1. }
  unfold index at 1 2. simpl.
  change (value_str +:+ "]") with (value_str +:+ String "]" EmptyString).
  rewrite split_char_at by done.
  unfold index at 1. simpl. rewrite Hv3, Hint. done.
Qed.

Lemma expand_spec_single_value_witness :
  expand_spec ("pool1-" +:+ "[" +:+ "0042" +:+ "]")
  = Ok ["pool1-" +:+ Str.format_d 42 (Z.of_nat (String.length "0042"))].
Proof.
  apply expand_spec_single_value; try reflexivity. repeat split; reflexivity.
Defined.

Lemma prefix_skip_prefix (p s : string) :
  String.prefix p s = true <-> is_Some (Str.skip_prefix p s).
Proof.
  revert s. induction p as [|x p IH]; intros s.
  - destruct s; simpl; split; eauto.
  - destruct s as [|y s]; simpl.
    + split; [done | by intros [? ?]].
    + destruct (ascii_dec x y) as [->|Hne].
      * rewrite bool_decide_eq_true_2 by done. apply IH.
      * rewrite bool_decide_eq_false_2 by done. split; [done | by intros [? ?]].
Qed.

Lemma split_str_without (sep s : string) :
  Str.contains_str sep s = false -> Str.split_str sep s = [s].
Proof.
  unfold Str.split_str. induction s as [|x s IH]; [done|].
  intros Hs. cbn [Str.contains_str] in Hs. cbn [Str.split_str_from].
  destruct (Str.skip_prefix sep (String x s)) eqn:Hsk; [done|].
  destruct (String.prefix sep (String x s)) eqn:Hpre.
  - apply prefix_skip_prefix in Hpre as [r Hr]. congruence.
  - by rewrite IH.
Qed.

(** A text without the marker [Nodes=] cannot be expanded: the expansion
    raises [IndexError]. *)
Theorem expand_nodes_without_marker (raw_string : string) :
  Str.contains_str "Nodes=" raw_string = false ->
  expand_nodes raw_string = Error IndexError.
Proof.
  intros H. unfold expand_nodes, nodes_part.
  by rewrite split_str_without.
Qed.

Lemma expand_nodes_without_marker_witness :
  expand_nodes "SwitchName=s1 Level=0" = Error IndexError.
Proof. apply expand_nodes_without_marker. reflexivity. Defined.

(** ** The topology parser *)

Lemma span_all (f : ascii -> bool) (s : string) :
  all_chars f (Str.span f s).1 = true.
Proof.
  induction s as [|x s IH]; simpl; [done|].
  destruct (f x) eqn:Hx; simpl; [by rewrite Hx | done].
Qed.

Lemma match_switch_groups (text name level : string) :
  match_switch text = Some (name, level) ->
  Str.truthy name = true
  /\ Str.truthy level = true /\ all_chars Str.is_digit level = true.
Proof.
  unfold match_switch.
  destruct (Str.skip_prefix "SwitchName=" text) as [rest|];
    cbn [mbind option_bind]; [|done].
  destruct (Str.truthy (Str.span _ rest).1) eqn:Hn; [|done].
  destruct (Str.skip_prefix " Level="
              (Str.span (fun c => negb (Str.is_space c)) rest).2)
    as [after|]; cbn [mbind option_bind]; [|done].
  destruct (Str.truthy (Str.span Str.is_digit after).1) eqn:Hl; [|done].
  intros [= <- <-]. split; [done|]. split; [done|]. apply span_all.
Qed.

Lemma search_switch_groups (line name level : string) :
  search_switch line = Some (name, level) ->
  Str.truthy name = true
  /\ Str.truthy level = true /\ all_chars Str.is_digit level = true.
Proof.
  induction line as [|x line IH]; cbn [search_switch].
  - destruct (match_switch EmptyString) as [[n l]|] eqn:Hm; [|done].
    intros [= -> ->]. by apply match_switch_groups in Hm.
  - destruct (match_switch (String x line)) as [[n l]|] eqn:Hm; [|done].
    intros [= -> ->]. by apply match_switch_groups in Hm.
Qed.

Lemma append_nil_r (s : string) : s +:+ EmptyString = s.
Proof.
  induction s as [|x s IH]; [done|]. by rewrite append_cons, IH.
Qed.

Lemma rev_app_rev_app (s t u : string) :
  String.rev_app (String.rev_app s t) u = String.rev_app t (s +:+ u).
Proof.
  revert t. induction s as [|x s IH]; intros t; simpl; [done|].
  by rewrite IH.
Qed.

Lemma rev_involutive (s : string) : String.rev (String.rev s) = s.
Proof.
  unfold String.rev. rewrite rev_app_rev_app. simpl. apply append_nil_r.
Qed.

Lemma all_chars_rev_app (f : ascii -> bool) (s t : string) :
  all_chars f (String.rev_app s t) = all_chars f s && all_chars f t.
Proof.
  revert t. induction s as [|x s IH]; intros t; simpl; [done|].
  rewrite IH. simpl. destruct (f x), (all_chars f s); done.
Qed.

Lemma lstrip_no_space (s : string) :
  all_chars (fun c => negb (Str.is_space c)) s = true -> Str.lstrip s = s.
Proof.
  destruct s as [|x s]; simpl; [done|].
  intros [Hx _]%andb_true_iff. by destruct (Str.is_space x).
Qed.

(** [strip] leaves a text without white space as it is. *)
Lemma strip_no_space (s : string) :
  all_chars (fun c => negb (Str.is_space c)) s = true -> Str.strip s = s.
Proof.
  intros Hs. unfold Str.strip. rewrite (lstrip_no_space s Hs).
  rewrite lstrip_no_space; [apply rev_involutive|].
  unfold String.rev. rewrite all_chars_rev_app, Hs. done.
Qed.

Lemma digit_no_space (c : ascii) :
  Str.is_digit c = true -> negb (Str.is_space c) = true.
Proof. destruct c as [[] [] [] [] [] [] [] []]; vm_compute; congruence. Qed.

Lemma all_chars_impl (f g : ascii -> bool) (s : string) :
  (forall c, f c = true -> g c = true) ->
  all_chars f s = true -> all_chars g s = true.
Proof.
  intros Hfg. induction s as [|x s IH]; simpl; [done|].
  intros [Hx Hs]%andb_true_iff. by rewrite (Hfg x Hx), IH.
Qed.

Lemma digits_of_digits (acc : Z) (seen : bool) (s : string) :
  all_chars Str.is_digit s = true ->
  Str.truthy s = true \/ seen = true ->
  exists n, Str.digits acc seen s = Some n.
Proof.
  revert acc seen. induction s as [|x s IH]; intros acc seen; simpl.
  - intros _ [?| ->]; [done | by eexists].
  - intros [Hx Hs]%andb_true_iff _. unfold Str.is_digit in Hx.
    destruct (Ascii.is_nat x) as [dgt|]; [|done]. apply IH; auto.
Qed.

Lemma digit_count_digits (s : string) :
  all_chars Str.is_digit s = true ->
  Str.digit_count s = Z.of_nat (String.length s).
Proof.
  induction s as [|x s IH]; simpl; [done|].
  intros [-> Hs]%andb_true_iff. rewrite (IH Hs). lia.
Qed.

(** [int] accepts a text made of decimal digits, one or more, when they are
    no more than [int_max_str_digits], and rejects it when they are more. *)
Lemma int_of_digits (s : string) :
  all_chars Str.is_digit s = true -> Str.truthy s = true ->
  if Str.int_max_str_digits <? Z.of_nat (String.length s)
  then Str.int s = Error ValueError
  else exists n, Str.int s = Ok n.
Proof.
  intros Hd Ht. unfold Str.int. rewrite strip_no_space.
  2:{ eapply all_chars_impl; [apply digit_no_space | done]. }
  rewrite (digit_count_digits s Hd).
  destruct (digits_of_digits 0 false s Hd (or_introl Ht)) as [n Hn].
  assert (Str.signed_digits s = Str.digits 0 false s) as ->.
  { destruct s as [|c s]; [done|]. simpl in Hd.
    apply andb_true_iff in Hd as [Hc _].
    destruct c as [[] [] [] [] [] [] [] []]; try done;
      vm_compute in Hc; congruence. }
  rewrite Hn. destruct (_ <? _); [done | by exists n].
Qed.

(** [int] rejects a literal of 4301 digits and reads one of 4300. *)
Lemma int_long_literal :
  Str.int (Str.zeros 4301) = Error ValueError
  /\ Str.int (Str.zeros 4300) = Ok 0.
Proof. split; by vm_compute. Qed.

(** The switch declaration step fails on one kind of line only: a
    declaration whose level has more digits than [int] converts. *)
Lemma parse_switch_line_error (st : topology_state) (line : string)
    (e : py_error) :
  parse_switch_line st line = Error e ->
  exists name level,
    search_switch line = Some (name, level)
    /\ Str.int level = Error e
    /\ Str.int_max_str_digits < Z.of_nat (String.length level).
Proof.
  unfold parse_switch_line.
  destruct (search_switch line) as [[name level]|] eqn:Hs; [|done].
  intros Hrun. exists name, level. split; [done|].
  apply search_switch_groups in Hs as (_ & Ht & Hd).
  pose proof (int_of_digits level Hd Ht) as Hint.
  destruct (Z.ltb_spec Str.int_max_str_digits (Z.of_nat (String.length level)))
    as [Hlong|Hshort].
  - rewrite Hint in Hrun. simpl in Hrun. injection Hrun as <-. done.
  - destruct Hint as [n Hn]. by rewrite Hn in Hrun.
Qed.

Lemma expand_nodes_error (raw_string : string) (e : py_error) :
  expand_nodes raw_string = Error e -> e = ValueError \/ e = IndexError.
Proof.
  unfold expand_nodes, nodes_part, index.
  destruct (Str.split_str "Nodes=" raw_string !! 1%nat) as [after|]; simpl;
    [|intros [= <-]; by right].
  destruct (Str.split_ws after !! 0%nat) as [part|]; simpl;
    [|intros [= <-]; by right].
  generalize (@nil string).
  induction (Str.split_char "," part) as [|spec specs IH]; intros acc; simpl;
    [done|].
  destruct (expand_spec spec) as [names|e'] eqn:Hs; simpl; [apply IH|].
  intros [= <-]. left. by apply expand_spec_error in Hs.
Qed.

(** What makes the parser fail: when [parse_topology_file] raises, the
    exception is a [ValueError] or an [IndexError], and some line of the
    file either declares a switch whose level has more digits than [int]
    converts, or holds [Nodes=] and its expansion raises that exception. *)
Theorem parse_topology_file_failures (topo_output : list string)
    (e : py_error) :
  parse_topology_file topo_output = Error e ->
  (e = ValueError \/ e = IndexError)
  /\ exists line,
       line ∈ topo_output
       /\ ((exists name level,
              search_switch line = Some (name, level)
              /\ Str.int level = Error e
              /\ Str.int_max_str_digits < Z.of_nat (String.length level))
           \/ (Str.contains_str "Nodes=" line = true
               /\ expand_nodes line = Error e)).
Proof.
  unfold parse_topology_file.
  generalize ({| ts_node_to_switch := ∅; ts_parents := ∅; ts_children := ∅;
                 ts_current_switch := None |}).
  intros st Hrun.
  assert (parse_topology_lines topo_output st = Error e) as Hloop.
  { destruct (parse_topology_lines topo_output st); [done | by injection Hrun as ->]. }
  clear Hrun. revert st Hloop.
  induction topo_output as [|line rest IH]; intros st; simpl; [done|].
  destruct (parse_switch_line st line) as [st1|e1] eqn:Hsw; simpl.
  2:{ intros [= ->].
      destruct (parse_switch_line_error st line e Hsw)
        as (name & level & Hs & Hint & Hlong).
      split; [left; by apply int_error in Hint|].
      exists line. split; [left|]. left. by exists name, level. }
  destruct (parse_nodes_line st1 line) as [st2|e2] eqn:Hn; simpl.
  - intros Hrest. destruct (IH _ Hrest) as (He & l & Hl & Hx).
    split; [done|]. exists l. split; [by right | done].
  - intros [= ->]. unfold parse_nodes_line in Hn.
    destruct (ts_current_switch st1) as [c|]; [|done].
    destruct (Str.contains_str "Nodes=" line) eqn:Hc; simpl in Hn; [|done].
    destruct (Str.truthy c); simpl in Hn; [|done].
    destruct (expand_nodes line) as [names|e'] eqn:Hx; simpl in Hn; [done|].
    injection Hn as ->. split; [by apply expand_nodes_error in Hx|].
    exists line. split; [left | by right].
Qed.

Lemma parse_topology_file_failures_witness :
  (ValueError = ValueError \/ ValueError = IndexError)
  /\ exists line,
       line ∈ ["SwitchName=s1 Level=0 Switches=p1"; "Nodes=n[a-3]"]
       /\ ((exists name level,
              search_switch line = Some (name, level)
              /\ Str.int level = Error ValueError
              /\ Str.int_max_str_digits < Z.of_nat (String.length level))
           \/ (Str.contains_str "Nodes=" line = true
               /\ expand_nodes line = Error ValueError)).
Proof.
  apply (parse_topology_file_failures
           ["SwitchName=s1 Level=0 Switches=p1"; "Nodes=n[a-3]"] ValueError).
  reflexivity.
Defined.

Lemma foldl_insert_lookup (c : string) (names : list string)
    (table : gmap string string) (node : string) :
  foldl (fun t n => <[n := c]> t) table names !! node
  = if decide (node ∈ names) then Some c else table !! node.
Proof.
  revert table. induction names as [|n names IH]; intros table.
  - destruct (decide (node ∈ [])) as [Hin|]; [|done]. by apply elem_of_nil in Hin.
  - cbn [foldl]. rewrite IH. destruct (decide (node ∈ names)) as [Hin|Hout].
    + rewrite decide_True; [done | by right].
    + destruct (decide (node = n)) as [->|Hne].
      * rewrite lookup_insert_eq. rewrite decide_True; [done | left].
      * rewrite lookup_insert_ne by done.
        rewrite decide_False; [done|]. rewrite elem_of_cons. tauto.
Qed.

Section children.
Variable current_switch : string.

Let add_child (children : gmap string (list string)) (parent : string) :=
  <[parent := default [] (children !! parent) ++ [current_switch]]> children.

Lemma add_child_keeps (children : gmap string (list string))
    (parent q s : string) (kids : list string) :
  children !! q = Some kids -> s ∈ kids ->
  exists kids', add_child children parent !! q = Some kids' /\ s ∈ kids'.
Proof.
  intros Hq Hs. unfold add_child. destruct (decide (parent = q)) as [->|Hne].
  - rewrite lookup_insert_eq, Hq. simpl. eexists. split; [done|].
    apply elem_of_app. by left.
  - rewrite lookup_insert_ne by done. by exists kids.
Qed.

Lemma add_children_keep (parents : list string)
    (children : gmap string (list string)) (q s : string) (kids : list string) :
  children !! q = Some kids -> s ∈ kids ->
  exists kids', foldl add_child children parents !! q = Some kids' /\ s ∈ kids'.
Proof.
  revert children kids. induction parents as [|p ps IH]; intros children kids;
    simpl; [by exists kids|].
  intros Hq Hs.
  destruct (add_child_keeps children p q s kids Hq Hs) as (kids1 & H1 & Hs1).
  by apply (IH _ kids1).
Qed.

Lemma add_children_lists (parents : list string)
    (children : gmap string (list string)) (parent : string) :
  parent ∈ parents ->
  exists kids,
    foldl add_child children parents !! parent = Some kids
    /\ current_switch ∈ kids.
Proof.
  revert children. induction parents as [|p ps IH]; intros children.
  - by intros ?%elem_of_nil.
  - intros [->|Hin]%elem_of_cons; simpl; [|by apply IH].
    apply (add_children_keep ps _ p current_switch
             (default [] (children !! p) ++ [current_switch])).
    + unfold add_child. by rewrite lookup_insert_eq.
    + apply elem_of_app. right. left.
Qed.

End children.

(** Recording the parents of a leaf switch keeps the two tables of the
    hierarchy in step. *)
Lemma record_leaf_parents_consistent (current_switch parents_text : string)
    (parents : gmap string string) (children : gmap string (list string)) :
  (forall switch text parent,
     parents !! switch = Some text -> parent ∈ Str.split_char "," text ->
     exists kids, children !! parent = Some kids /\ switch ∈ kids) ->
  forall switch text parent,
    (record_leaf_parents current_switch parents_text (parents, children)).1
      !! switch = Some text ->
    parent ∈ Str.split_char "," text ->
    exists kids,
      (record_leaf_parents current_switch parents_text (parents, children)).2
        !! parent = Some kids
      /\ switch ∈ kids.
Proof.
  intros Hinv switch text parent. unfold record_leaf_parents. simpl.
  destruct (decide (current_switch = switch)) as [->|Hne].
  - rewrite lookup_insert_eq. intros [= <-] Hp.
    by apply (add_children_lists switch).
  - rewrite lookup_insert_ne by done. intros Ht Hp.
    destruct (Hinv _ _ _ Ht Hp) as (kids & Hk & Hs).
    by apply (add_children_keep current_switch _ _ parent switch kids).
Qed.

Lemma parse_switch_line_invariant (st st' : topology_state) (line : string) :
  parse_switch_line st line = Ok st' ->
  topology_invariant st -> topology_invariant st'.
Proof.
  unfold parse_switch_line.
  destruct (search_switch line) as [[name level]|] eqn:Hs;
    [|by intros [= <-]].
  apply search_switch_groups in Hs as (Hname & _ & _).
  destruct (Str.int level) as [n|]; simpl; [|done].
  intros [= <-] (Hc & Hn & Hh). split; [|split]; simpl.
  - by intros c [= <-].
  - done.
  - destruct (n =? 0); [|done].
    destruct (search_parents line) as [text|]; [|done].
    by apply record_leaf_parents_consistent.
Qed.

Lemma parse_nodes_line_invariant (st st' : topology_state) (line : string) :
  parse_nodes_line st line = Ok st' ->
  topology_invariant st -> topology_invariant st'.
Proof.
  unfold parse_nodes_line.
  destruct (ts_current_switch st) as [c|] eqn:Hcur; [|by intros [= <-]].
  destruct (Str.contains_str "Nodes=" line); simpl; [|by intros [= <-]].
  destruct (Str.truthy c) eqn:Ht; simpl; [|by intros [= <-]].
  destruct (expand_nodes line) as [names|]; simpl; [|done].
  intros [= <-] (Hc & Hn & Hh). split; [|split]; simpl;
    [by intros c0 [= <-]| |done].
  intros node switch. rewrite foldl_insert_lookup.
  destruct (decide (node ∈ names)); [by intros [= <-] | apply Hn].
Qed.

Lemma parse_topology_lines_invariant (topo_output : list string)
    (st st' : topology_state) :
  parse_topology_lines topo_output st = Ok st' ->
  topology_invariant st -> topology_invariant st'.
Proof.
  revert st. induction topo_output as [|line rest IH]; intros st; simpl.
  - by intros [= <-].
  - destruct (parse_switch_line st line) as [st1|] eqn:H1; simpl; [|done].
    destruct (parse_nodes_line st1 line) as [st2|] eqn:H2; simpl; [|done].
    intros Hrest Hinv. apply (IH st2 Hrest).
    apply (parse_nodes_line_invariant st1 st2 line H2).
    by apply (parse_switch_line_invariant st st1 line H1).
Qed.

Lemma parse_topology_file_state (topo_output : list string)
    (node_to_switch : gmap string string) (hierarchy : switch_hierarchy) :
  parse_topology_file topo_output = Ok (node_to_switch, hierarchy) ->
  exists st,
    topology_invariant st
    /\ node_to_switch = ts_node_to_switch st
    /\ hierarchy = {| hier_parents := Some (ts_parents st);
                      hier_children := Some (ts_children st) |}.
Proof.
  unfold parse_topology_file.
  destruct (parse_topology_lines _ _) as [st|] eqn:Hloop; simpl; [|done].
  intros [= <- <-]. exists st. split; [|done].
  apply (parse_topology_lines_invariant _ _ _ Hloop).
  split; [|split]; simpl; intros *; by rewrite ?lookup_empty.
Qed.

(** In a topology built by [parse_topology_file], every node is mapped to a
    switch with a name that is not empty: the grouper takes a node for
    missing exactly when the node is absent from the map. *)
Theorem parsed_topology_switch_names (topo_output : list string)
    (node_to_switch : gmap string string) (hierarchy : switch_hierarchy) :
  parse_topology_file topo_output = Ok (node_to_switch, hierarchy) ->
  (forall node switch,
     node_to_switch !! node = Some switch -> switch <> EmptyString)
  /\ (forall node,
        known_to_topology node_to_switch node = true
        <-> is_Some (node_to_switch !! node)).
Proof.
  intros (st & (_ & Hn & _) & -> & _)%parse_topology_file_state.
  assert (forall node switch,
            ts_node_to_switch st !! node = Some switch ->
            switch <> EmptyString) as Hne.
  { intros node switch Hs ->. by apply Hn in Hs. }
  split; [done|]. intros node. unfold known_to_topology.
  destruct (ts_node_to_switch st !! node) as [switch|] eqn:Hs.
  - rewrite (Hn _ _ Hs). split; [by eexists | done].
  - split; [done | by intros [? ?]].
Qed.

Lemma parsed_topology_switch_names_witness :
  let node_to_switch : gmap string string :=
    <["n2" := "s1"]> (<["n1" := "s1"]> ∅) in
  (forall node switch,
     node_to_switch !! node = Some switch -> switch <> EmptyString)
  /\ (forall node,
        known_to_topology node_to_switch node = true
        <-> is_Some (node_to_switch !! node)).
Proof.
  apply (parsed_topology_switch_names
           ["SwitchName=s1 Level=0 Nodes=n[1-2] Switches=p1"] _
           {| hier_parents := Some (<["s1" := "p1"]> ∅);
              hier_children := Some (<["p1" := ["s1"]]> ∅) |}).
  reflexivity.
Defined.

(** In a hierarchy built by [parse_topology_file], the two tables are in
    step: a switch recorded with a parent text is listed among the children
    of every parent named in the text, split at the commas. *)
Theorem parsed_hierarchy_consistent (topo_output : list string)
    (node_to_switch : gmap string string) (hierarchy : switch_hierarchy) :
  parse_topology_file topo_output = Ok (node_to_switch, hierarchy) ->
  exists parents children,
    hier_parents hierarchy = Some parents
    /\ hier_children hierarchy = Some children
    /\ forall switch text parent,
         parents !! switch = Some text ->
         parent ∈ Str.split_char "," text ->
         exists kids, children !! parent = Some kids /\ switch ∈ kids.
Proof.
  intros (st & (_ & _ & Hh) & _ & ->)%parse_topology_file_state.
  by exists (ts_parents st), (ts_children st).
Qed.

Lemma parsed_hierarchy_consistent_witness :
  exists parents children,
    hier_parents {| hier_parents := Some (<["s1" := "p1,p2"]> ∅);
                    hier_children :=
                      Some (<["p2" := ["s1"]]> (<["p1" := ["s1"]]> ∅)) |}
    = Some parents
    /\ hier_children {| hier_parents := Some (<["s1" := "p1,p2"]> ∅);
                        hier_children :=
                          Some (<["p2" := ["s1"]]> (<["p1" := ["s1"]]> ∅)) |}
       = Some children
    /\ forall switch text parent,
         parents !! switch = Some text ->
         parent ∈ Str.split_char "," text ->
         exists kids, children !! parent = Some kids /\ switch ∈ kids.
Proof.
  apply (parsed_hierarchy_consistent
           ["SwitchName=s1 Level=0 Switches=p1,p2"] ∅).
  reflexivity.
Defined.

Lemma expand_nodes_ok_marker (line : string) (names : list string) :
  expand_nodes line = Ok names -> Str.contains_str "Nodes=" line = true.
Proof.
  destruct (Str.contains_str "Nodes=" line) eqn:Hc; [done|].
  unfold expand_nodes, nodes_part. by rewrite split_str_without.
Qed.

(** A node list line maps each node it names to the current switch, in
    place of any switch mapped before, and leaves every other node as it
    was: of two declarations of a node, the later one wins. *)
Theorem parse_nodes_line_assigns (st st' : topology_state)
    (line current : string) (names : list string) :
  ts_current_switch st = Some current -> current <> EmptyString ->
  expand_nodes line = Ok names ->
  parse_nodes_line st line = Ok st' ->
  forall node,
    ts_node_to_switch st' !! node
    = if decide (node ∈ names) then Some current
      else ts_node_to_switch st !! node.
Proof.
  intros Hcur Hne Hx. unfold parse_nodes_line. rewrite Hcur, Hx.
  rewrite (expand_nodes_ok_marker line names Hx).
  assert (Str.truthy current = true) as -> by (by destruct current).
  simpl. intros [= <-] node. simpl. apply foldl_insert_lookup.
Qed.

Lemma parse_nodes_line_assigns_witness :
  ts_node_to_switch
    {| ts_node_to_switch :=
         <["n2" := "s1"]> (<["n1" := "s1"]> (<["n1" := "s0"]> ∅));
       ts_parents := ∅; ts_children := ∅;
       ts_current_switch := Some "s1" |} !! "n1"
  = if decide ("n1" ∈ ["n1"; "n2"]) then Some "s1"
    else ts_node_to_switch
           {| ts_node_to_switch := <["n1" := "s0"]> ∅;
              ts_parents := ∅; ts_children := ∅;
              ts_current_switch := Some "s1" |} !! "n1".
Proof.
  apply (parse_nodes_line_assigns
           {| ts_node_to_switch := <["n1" := "s0"]> ∅;
              ts_parents := ∅; ts_children := ∅;
              ts_current_switch := Some "s1" |}
           _ "Nodes=n[1-2]" "s1" ["n1"; "n2"]).
  - reflexivity.
  - discriminate.
  - reflexivity.
  - reflexivity.
Defined.

(** ** The allocated nodes file and the output file *)

Lemma split_ws_spaces (w : string) :
  all_chars Str.is_space w = true -> Str.split_ws w = [].
Proof.
  induction w as [|x w IH]; simpl; [done|].
  intros [Hx Hw]%andb_true_iff. rewrite Hx. auto.
Qed.

(** White space at the end of a text adds no token. *)
Lemma split_ws_trailing (u w : string) :
  all_chars Str.is_space w = true -> Str.split_ws (u +:+ w) = Str.split_ws u.
Proof.
  intros Hw. induction u as [|x r IH].
  - rewrite append_empty. by rewrite split_ws_spaces.
  - rewrite append_cons. cbn [Str.split_ws].
    destruct (Str.is_space x); [done|].
    destruct r as [|y r'].
    + rewrite append_empty. destruct w as [|y w']; [done|].
      simpl in Hw. apply andb_true_iff in Hw as [Hy Hw'].
      rewrite Hy. rewrite (split_ws_spaces (String y w')); [done|].
      simpl. by rewrite Hy.
    + rewrite append_cons. rewrite append_cons in IH.
      destruct (Str.is_space y); by rewrite IH.
Qed.

Lemma split_ws_lstrip (s : string) : Str.split_ws (Str.lstrip s) = Str.split_ws s.
Proof.
  induction s as [|x r IH]; [done|]. cbn [Str.lstrip].
  destruct (Str.is_space x) eqn:Hx; [|done].
  rewrite IH. cbn [Str.split_ws]. by rewrite Hx.
Qed.

Lemma lstrip_spaces (s : string) :
  exists w, all_chars Str.is_space w = true /\ s = w +:+ Str.lstrip s.
Proof.
  induction s as [|x r (w & Hw & IH)]; [by exists EmptyString|].
  cbn [Str.lstrip]. destruct (Str.is_space x) eqn:Hx.
  - exists (String x w). split; [simpl; by rewrite Hx|].
    by rewrite append_cons, <-IH.
  - by exists EmptyString.
Qed.

Lemma rev_app_append (s t : string) :
  String.rev_app s t = String.rev s +:+ t.
Proof.
  revert t. induction s as [|x s IH]; intros t; [done|].
  unfold String.rev. simpl. rewrite IH, (IH (String x EmptyString)).
  by rewrite append_assoc.
Qed.

Lemma rev_app_of_append (a b t : string) :
  String.rev_app (a +:+ b) t = String.rev_app b (String.rev_app a t).
Proof.
  revert t. induction a as [|x a IH]; intros t; [done|].
  rewrite append_cons. simpl. apply IH.
Qed.

Lemma rev_append (a b : string) :
  String.rev (a +:+ b) = String.rev b +:+ String.rev a.
Proof.
  unfold String.rev at 1. rewrite rev_app_of_append. apply rev_app_append.
Qed.

(** Stripping a text does not change its tokens. *)
Lemma split_ws_strip (s : string) : Str.split_ws (Str.strip s) = Str.split_ws s.
Proof.
  unfold Str.strip. rewrite <-(split_ws_lstrip s).
  set (t := Str.lstrip s).
  destruct (lstrip_spaces (String.rev t)) as (w & Hw & Hrev).
  assert (t = String.rev (Str.lstrip (String.rev t)) +:+ String.rev w) as Ht.
  { rewrite <-rev_append, <-Hrev. by rewrite rev_involutive. }
  rewrite Ht at 2. rewrite split_ws_trailing; [done|].
  unfold String.rev. by rewrite all_chars_rev_app, Hw.
Qed.

Lemma cons_head_token (x : ascii) (pieces : list string) :
  Str.is_space x = false ->
  Forall (fun t => Str.truthy t = true
                   /\ all_chars (fun c => negb (Str.is_space c)) t = true)
    pieces ->
  Forall (fun t => Str.truthy t = true
                   /\ all_chars (fun c => negb (Str.is_space c)) t = true)
    (Str.cons_head x pieces).
Proof.
  intros Hx Hall. destruct Hall as [|t ts [Ht1 Ht2] Hts]; simpl.
  - constructor; [|done]. simpl. by rewrite Hx.
  - constructor; [|done]. simpl. by rewrite Hx.
Qed.

Lemma split_ws_tokens (s : string) :
  Forall (fun t => Str.truthy t = true
                   /\ all_chars (fun c => negb (Str.is_space c)) t = true)
    (Str.split_ws s).
Proof.
  induction s as [|x r IH]; [constructor|]. cbn [Str.split_ws].
  destruct (Str.is_space x) eqn:Hx; [done|].
  destruct r as [|y r'].
  - constructor; [|done]. simpl. by rewrite Hx.
  - destruct (Str.is_space y).
    + constructor; [|done]. simpl. by rewrite Hx.
    + by apply cons_head_token.
Qed.

(** The node names read from the allocated nodes file are the maximal runs
    of characters that are not white space: stripping the text first changes
    nothing, and no name is empty or holds white space. *)
Theorem parse_allocated_nodes_tokens (content : string) :
  parse_allocated_nodes content = Str.split_ws content
  /\ Forall (fun name =>
               name <> EmptyString
               /\ all_chars (fun c => negb (Str.is_space c)) name = true)
       (parse_allocated_nodes content).
Proof.
  unfold parse_allocated_nodes. rewrite split_ws_strip. split; [done|].
  eapply Forall_impl; [apply split_ws_tokens|].
  intros t [Ht Hs]. split; [by destruct t | done].
Qed.

Lemma split_ws_token_then (t u : string) :
  Str.truthy t = true ->
  all_chars (fun c => negb (Str.is_space c)) t = true ->
  Str.split_ws (t +:+ String " " u) = t :: Str.split_ws u.
Proof.
  induction t as [|x r IH]; [done|]. intros _ Hall.
  simpl in Hall. apply andb_true_iff in Hall as [Hx Hr].
  apply negb_true_iff in Hx.
  rewrite append_cons. cbn [Str.split_ws]. rewrite Hx.
  destruct r as [|y r'].
  - rewrite append_empty. done.
  - rewrite append_cons. rewrite append_cons in IH.
    simpl in Hr. apply andb_true_iff in Hr as [Hy Hr'].
    apply negb_true_iff in Hy. rewrite Hy.
    rewrite IH; [done|done|]. simpl. by rewrite Hy.
Qed.

Lemma split_ws_token (t : string) :
  Str.truthy t = true ->
  all_chars (fun c => negb (Str.is_space c)) t = true ->
  Str.split_ws t = [t].
Proof.
  intros Ht Hall.
  rewrite <-(split_ws_trailing t (String " " EmptyString)) by done.
  by rewrite split_ws_token_then.
Qed.

(** Names that are not empty and hold no white space, written with one
    space between them, are read back as they are. *)
Theorem parse_allocated_nodes_of_names (names : list string) :
  Forall (fun name =>
            name <> EmptyString
            /\ all_chars (fun c => negb (Str.is_space c)) name = true)
    names ->
  parse_allocated_nodes (Str.join " " names) = names.
Proof.
  intros Hall. unfold parse_allocated_nodes. rewrite split_ws_strip.
  induction Hall as [|t ts [Ht Hs] Hts IH]; [done|].
  assert (Str.truthy t = true) by (by destruct t).
  destruct ts as [|t' ts'].
  - by apply split_ws_token.
  - change (Str.join " " (t :: t' :: ts'))
      with (t +:+ String " " (Str.join " " (t' :: ts'))).
    by rewrite split_ws_token_then, IH.
Qed.

Lemma parse_allocated_nodes_of_names_witness :
  parse_allocated_nodes (Str.join " " ["n1"; "pool-2"; "n3"])
  = ["n1"; "pool-2"; "n3"].
Proof.
  apply parse_allocated_nodes_of_names. repeat constructor; discriminate.
Defined.

Lemma all_chars_append (f : ascii -> bool) (s t : string) :
  all_chars f (s +:+ t) = all_chars f s && all_chars f t.
Proof.
  induction s as [|x s IH]; [done|].
  rewrite append_cons. simpl. rewrite IH. by rewrite andb_assoc.
Qed.

Lemma all_chars_rev (f : ascii -> bool) (s : string) :
  all_chars f (String.rev s) = all_chars f s.
Proof.
  unfold String.rev. rewrite all_chars_rev_app. simpl. by rewrite andb_true_r.
Qed.

Lemma rev_cons (x : ascii) (s : string) :
  String.rev (String x s) = String.rev s +:+ String x EmptyString.
Proof.
  change (String x s) with (String x EmptyString +:+ s). by rewrite rev_append.
Qed.

Lemma rev_truthy (s : string) :
  Str.truthy s = true -> Str.truthy (String.rev s) = true.
Proof.
  destruct s as [|x s]; [done|]. intros _. rewrite rev_cons.
  by destruct (String.rev s).
Qed.

Lemma no_space_head (s : string) :
  all_chars (fun c => negb (Str.is_space c)) s = true ->
  Str.truthy s = true ->
  exists c v, s = String c v /\ Str.is_space c = false.
Proof.
  destruct s as [|c v]; [done|]. simpl.
  intros [Hc _]%andb_true_iff _. exists c, v. split; [done|].
  by destruct (Str.is_space c).
Qed.

Lemma lstrip_after_spaces (w u : string) :
  all_chars Str.is_space w = true -> Str.lstrip (w +:+ u) = Str.lstrip u.
Proof.
  induction w as [|x w IH]; [done|]. simpl.
  intros [Hx Hw]%andb_true_iff. rewrite Hx. auto.
Qed.

(** [strip] takes away the white space around a text that starts and ends
    with a character that is not white space. *)
Lemma strip_framed (pre u post : string) (c c' : ascii) (v v' : string) :
  u = String c v -> Str.is_space c = false ->
  String.rev u = String c' v' -> Str.is_space c' = false ->
  all_chars Str.is_space pre = true -> all_chars Str.is_space post = true ->
  Str.strip (pre +:+ u +:+ post) = u.
Proof.
  intros Hu Hc Hr Hc' Hpre Hpost. unfold Str.strip.
  rewrite lstrip_after_spaces by done.
  assert (Str.lstrip (u +:+ post) = u +:+ post) as ->.
  { rewrite Hu, append_cons. simpl. by rewrite Hc. }
  rewrite rev_append, lstrip_after_spaces by (by rewrite all_chars_rev).
  assert (Str.lstrip (String.rev u) = String.rev u) as ->.
  { rewrite Hr. simpl. by rewrite Hc'. }
  apply rev_involutive.
Qed.

Lemma no_space_no_newline (s : string) :
  all_chars (fun c => negb (Str.is_space c)) s = true ->
  Str.contains "010" s = false.
Proof.
  induction s as [|x s IH]; simpl; [done|].
  intros [Hx Hs]%andb_true_iff. rewrite (IH Hs), orb_false_r.
  apply bool_decide_eq_false. by intros ->.
Qed.

(** The line written for a workload that is not empty holds no white
    space, and its pieces between commas are the names of the workload. *)
Lemma join_plain_names (names : list string) :
  Forall plain_name names -> names <> [] ->
  all_chars (fun c => negb (Str.is_space c)) (Str.join "," names) = true
  /\ Str.truthy (Str.join "," names) = true
  /\ Str.split_char "," (Str.join "," names) = names.
Proof.
  intros Hall. induction Hall as [|t ts (Ht & Hc & Hs) Hts IH]; [done|].
  intros _. destruct ts as [|t' ts'].
  - split; [done|]. split; [by destruct t|]. by apply split_char_without.
  - destruct IH as (IH1 & IH2 & IH3); [done|].
    change (Str.join "," (t :: t' :: ts'))
      with (t +:+ String "," (Str.join "," (t' :: ts'))).
    split; [|split].
    + rewrite all_chars_append, Hs. cbn [all_chars andb]. by rewrite IH1.
    + by destruct t.
    + by rewrite split_char_at, IH3.
Qed.

(** The output file read back as [test_main] reads it gives the two
    workloads that [process_files] wrote, when neither is empty and every
    name is plain.  The line of an empty workload is lost with the white
    space that [strip] takes away, and the read fails with [IndexError]. *)
Theorem output_read_back (workload_a workload_b : list string) :
  Forall plain_name workload_a -> Forall plain_name workload_b ->
  read_split_nodes (output_text workload_a workload_b)
  = match workload_a, workload_b with
    | _ :: _, _ :: _ => Ok (workload_a, workload_b)
    | _, _ => Error IndexError
    end.
Proof.
  intros Ha Hb. unfold read_split_nodes, output_text, output_lines.
  cbn [foldr].
  set (nl := "010"%char).
  assert (all_chars Str.is_space (String nl EmptyString) = true) as Hnl by done.
  assert (all_chars Str.is_space (String nl (String nl EmptyString)) = true)
    as Hnl2 by done.
  destruct workload_a as [|a la], workload_b as [|b lb].
  - reflexivity.
  - destruct (join_plain_names (b :: lb) Hb) as (Hs & Ht & Hsplit); [done|].
    set (line_b := Str.join "," (b :: lb)) in *.
    destruct (no_space_head line_b Hs Ht) as (c & v & Hu & Hc).
    destruct (no_space_head (String.rev line_b)) as (c' & v' & Hr & Hc');
      [by rewrite all_chars_rev | by apply rev_truthy |].
    change (Str.join "," [] +:+ String nl (line_b +:+ String nl EmptyString))
      with (String nl EmptyString +:+ line_b +:+ String nl EmptyString).
    rewrite (strip_framed _ line_b _ c c' v v') by done.
    rewrite split_char_without by (by apply no_space_no_newline). done.
  - destruct (join_plain_names (a :: la) Ha) as (Hs & Ht & Hsplit); [done|].
    set (line_a := Str.join "," (a :: la)) in *.
    destruct (no_space_head line_a Hs Ht) as (c & v & Hu & Hc).
    destruct (no_space_head (String.rev line_a)) as (c' & v' & Hr & Hc');
      [by rewrite all_chars_rev | by apply rev_truthy |].
    change (line_a +:+ String nl (Str.join "," [] +:+ String nl EmptyString))
      with (EmptyString +:+ line_a +:+ String nl (String nl EmptyString)).
    rewrite (strip_framed _ line_a _ c c' v v') by done.
    rewrite split_char_without by (by apply no_space_no_newline). done.
  - destruct (join_plain_names (a :: la) Ha) as (Hsa & Hta & Hsplita); [done|].
    destruct (join_plain_names (b :: lb) Hb) as (Hsb & Htb & Hsplitb); [done|].
    set (line_a := Str.join "," (a :: la)) in *.
    set (line_b := Str.join "," (b :: lb)) in *.
    destruct (no_space_head line_a Hsa Hta) as (c & v & Hu & Hc).
    destruct (no_space_head (String.rev line_b)) as (c' & v' & Hr & Hc');
      [by rewrite all_chars_rev | by apply rev_truthy |].
    assert (line_a +:+ String nl (line_b +:+ String nl EmptyString)
            = EmptyString +:+ (line_a +:+ String nl line_b)
                +:+ String nl EmptyString) as ->.
    { rewrite append_empty, append_assoc. by rewrite append_cons. }
    rewrite (strip_framed _ (line_a +:+ String nl line_b) _
               c c' (v +:+ String nl line_b)
               (v' +:+ String nl EmptyString +:+ String.rev line_a)).
    + rewrite split_char_at by (by apply no_space_no_newline).
      rewrite split_char_without by (by apply no_space_no_newline).
      simpl. by rewrite Hsplita, Hsplitb.
    + by rewrite Hu, append_cons.
    + done.
    + rewrite rev_append, rev_cons, Hr. by rewrite append_assoc, append_cons.
    + done.
    + done.
    + done.
Qed.

Lemma output_read_back_witness :
  read_split_nodes (output_text ["n1"; "n4"] ["n2"; "n3"; "n5"])
  = Ok (["n1"; "n4"], ["n2"; "n3"; "n5"]).
Proof.
  apply (output_read_back ["n1"; "n4"] ["n2"; "n3"; "n5"]);
    repeat constructor; discriminate.
Defined.

(** ** When the compact strategy meets the requested counts *)

Lemma size_list_to_set_le (l : list string) :
  (size (list_to_set l : gset string) <= length l)%nat.
Proof.
  induction l as [|x l IH].
  - by rewrite list_to_set_nil, size_empty.
  - rewrite list_to_set_cons, size_union_alt, size_singleton. simpl.
    assert (list_to_set l ∖ {[x]} ⊆ (list_to_set l : gset string)) as Hsub.
    { intros y Hy. by apply elem_of_difference in Hy as [? _]. }
    apply subseteq_size in Hsub. lia.
Qed.

(** The nodes left unallocated are at least as many as the nodes of the
    grouping that the two lists cannot account for. *)
Lemma len_unallocated (set_iter : gset string -> list string)
    (all_nodes placed : list string) :
  enumerates set_iter -> NoDup all_nodes ->
  Py.len all_nodes - Py.len placed
  <= Py.len (Py.sorted (set_iter (list_to_set all_nodes ∖ list_to_set placed))).
Proof.
  intros Hiter Hnd. rewrite len_sorted. unfold Py.len.
  rewrite (Hiter _).
  change (Z.of_nat (length all_nodes) - Z.of_nat (length placed)
          <= Z.of_nat (size (list_to_set all_nodes ∖ list_to_set placed
                             : gset string))).
  rewrite size_difference_alt.
  pose proof (size_list_to_set (C:=gset string) all_nodes Hnd) as Hall.
  pose proof (size_list_to_set_le placed).
  assert (list_to_set all_nodes ∩ list_to_set placed
          ⊆ (list_to_set placed : gset string)) as Hsub.
  { intros y Hy. by apply elem_of_intersection in Hy as [_ ?]. }
  apply subseteq_size in Hsub. lia.
Qed.

(** When the loop over the other switches ends with nodes still needed, it
    has taken every node of every switch it was given. *)
Lemma fill_from_switches_exhausts (d : odict (list string))
    (switches : list (string * Z)) (workload_a : list string) (needed : Z) :
  0 < (fill_from_switches d switches workload_a needed).2 ->
  (fill_from_switches d switches workload_a needed).1
  = workload_a ++ concat (nodes_of d <$> switches.*1).
Proof.
  revert workload_a needed.
  induction switches as [|[switch dist] rest IH]; intros workload_a needed;
    simpl; [by rewrite app_nil_r|].
  fold (nodes_of d switch).
  destruct (Z.leb_spec (Py.len (nodes_of d switch)) needed).
  - destruct (Z.leb_spec (needed - Py.len (nodes_of d switch)) 0); simpl; [lia|].
    intros Hpos. rewrite (IH _ _ Hpos). by rewrite app_assoc.
  - simpl. lia.
Qed.

Lemma keys_split_at (l : list string) (x : string) :
  NoDup l -> x ∈ l -> l ≡ₚ x :: filter (fun y => y <> x) l.
Proof.
  induction 1 as [|y l Hy Hnd IH]; [by intros ?%elem_of_nil|].
  rewrite filter_cons. intros [->|Hin]%elem_of_cons.
  - rewrite decide_False by (intros H; by apply H).
    f_equiv. clear IH. induction l as [|z l IH]; [done|].
    apply not_elem_of_cons in Hy as [Hz Hy]. apply NoDup_cons in Hnd as [_ Hnd].
    rewrite filter_cons. rewrite decide_True by congruence.
    f_equiv. by apply IH.
  - rewrite decide_True by (intros ->; done).
    rewrite (IH Hin) at 1. apply perm_swap.
Qed.

(** The nodes of a grouping are the nodes of any one of its switches and
    the nodes of the switches that the compact strategy visits after it. *)
Lemma nodes_split_at_largest (d : odict (list string))
    (hierarchy : switch_hierarchy) (largest : string) :
  Dict.wf d -> largest ∈ Dict.keys d ->
  Dict.all_values d
  ≡ₚ nodes_of d largest
     ++ concat (nodes_of d <$> (remaining_switches d hierarchy largest).*1).
Proof.
  intros Hwf Hin.
  assert ((remaining_switches d hierarchy largest).*1
          ≡ₚ filter (fun switch => switch <> largest) (Dict.keys d)) as Hrem.
  { unfold remaining_switches, Py.sorted_by_key. rewrite sorted_by_perm.
    rewrite <-list_fmap_compose. simpl. by rewrite list_fmap_id. }
  rewrite (concat_perm _ _ (fmap_Permutation (nodes_of d) _ _ Hrem)).
  change (nodes_of d largest
          ++ concat (nodes_of d <$> filter (fun switch => switch <> largest)
                                      (Dict.keys d)))
    with (concat (nodes_of d <$> largest
                    :: filter (fun switch => switch <> largest) (Dict.keys d))).
  rewrite <-(concat_perm _ _ (fmap_Permutation (nodes_of d) _ _
                                (keys_split_at _ _ Hwf Hin))).
  unfold nodes_of.
  rewrite (list_fmap_compose (Dict.at_key d) Py.sorted), at_key_keys by done.
  by rewrite concat_sorted_perm.
Qed.

(** The compact strategy fills both workloads when the grouping holds
    enough nodes. *)
Lemma compact_exact_lengths (set_iter : gset string -> list string)
    (switch_to_nodes : odict (list string))
    (node_to_switch : gmap string string) (hierarchy : switch_hierarchy)
    (requested_a requested_b : Z) :
  enumerates set_iter ->
  proper_groups switch_to_nodes -> 2 <= Py.len switch_to_nodes ->
  NoDup (Dict.all_values switch_to_nodes) ->
  1 <= requested_a -> 0 <= requested_b ->
  requested_a + requested_b <= Py.len (Dict.all_values switch_to_nodes) ->
  let split :=
    compact_split_nodes_between_workloads set_iter switch_to_nodes
      node_to_switch hierarchy requested_a requested_b in
  Py.len split.1 = requested_a /\ Py.len split.2 = requested_b.
Proof.
  intros Hiter [Hwf Hall] Hlen Hnd Ha Hb Hsum. cbv zeta.
  rewrite Forall_forall in Hall.
  pose proof (find_largest_max switch_to_nodes) as Hmax.
  unfold compact_split_nodes_between_workloads.
  destruct (Z.eqb_spec (Py.len switch_to_nodes) 1); [lia|]. cbv zeta.
  destruct (find_largest switch_to_nodes) as [[largest|] most] eqn:Hfind.
  2:{ exfalso. destruct Hmax as [_ Hzero].
      destruct switch_to_nodes as [|[k v] d]; [by unfold Py.len in Hlen|].
      destruct (Hall (k, v)) as [_ Hv]; [left|].
      specialize (Hzero k v ltac:(left)).
      destruct v; [done | by unfold Py.len in Hzero]. }
  destruct Hmax as (Hpos & (nodes & Hin & Hnodes) & _). subst most.
  destruct (Hall _ Hin) as [Htrue _]. simpl in Htrue.
  assert (largest ∈ Dict.keys switch_to_nodes) as Hkey.
  { unfold Dict.keys. apply list_elem_of_fmap. by exists (largest, nodes). }
  assert (Dict.at_key switch_to_nodes largest = nodes) as Hat.
  { unfold Dict.at_key. by rewrite (get_of_wf _ _ _ Hwf Hin). }
  pose proof (nodes_split_at_largest switch_to_nodes hierarchy largest Hwf Hkey)
    as Hsplit.
  simpl. rewrite Htrue. simpl.
  destruct (Z.ltb_spec (Py.len (Dict.at_key switch_to_nodes largest)) 1);
    [rewrite Hat in *; lia|].
  fold (nodes_of switch_to_nodes largest) in *.
  destruct (nodes_of switch_to_nodes largest) as [|first rest] eqn:Hsorted.
  { unfold nodes_of in Hsorted.
    rewrite <-(len_sorted (Dict.at_key switch_to_nodes largest)), Hsorted in *.
    unfold Py.len in *. simpl in *. lia. }
  rewrite slice_head_cons, slice_tail_cons.
  set (others :=
         concat (nodes_of switch_to_nodes
                   <$> (remaining_switches switch_to_nodes hierarchy largest).*1))
    in *.
  assert (Py.len (Dict.all_values switch_to_nodes)
          = 1 + Py.len rest + Py.len others) as Htotal.
  { unfold Py.len. rewrite Hsplit, length_app. simpl. lia. }
  destruct (fill_from_switches_count switch_to_nodes
              (remaining_switches switch_to_nodes hierarchy largest)
              [first] (requested_a - Py.len [first])) as [Hn Hcount].
  { unfold Py.len. simpl. lia. }
  pose proof (fill_from_switches_exhausts switch_to_nodes
                (remaining_switches switch_to_nodes hierarchy largest)
                [first] (requested_a - Py.len [first])) as Hexh.
  destruct (fill_from_switches _ _ _ _) as [workload_a needed].
  simpl in *. change (Py.len [first]) with 1 in Hcount.
  fold others in Hexh.
  set (k := Z.min requested_b (Py.len rest)).
  assert (0 <= k <= Py.len rest) by (pose proof (len_nonneg rest); lia).
  assert (Py.len (Py.slice_to k rest) = k) as Hb1 by (by apply len_slice_to).
  set (A := if 0 <? needed
            then workload_a ++ Py.slice_to needed (Py.slice_from k rest)
            else workload_a).
  assert (Py.len A = requested_a) as HA.
  { subst A. destruct (Z.ltb_spec 0 needed); [|lia].
    rewrite len_app. rewrite len_slice_to; [lia|].
    split; [lia|]. rewrite (Hexh ltac:(done)) in Hcount.
    assert (Py.len (first :: others) = 1 + Py.len others) as Hfo
      by (unfold Py.len; simpl; lia).
    assert (Py.len (Py.slice_to k rest) + Py.len (Py.slice_from k rest)
            = Py.len rest) as Hparts.
    { rewrite <-len_app. by rewrite slice_to_from. }
    lia. }
  split; [done|].
  rewrite Hb1. destruct (Z.ltb_spec 0 (requested_b - k)); [|lia].
  rewrite len_app, Hb1. rewrite len_slice_to; [lia|].
  split; [lia|].
  pose proof (len_unallocated set_iter (Dict.all_values switch_to_nodes)
                (A ++ Py.slice_to k rest) Hiter Hnd) as Hun.
  rewrite len_app, HA, Hb1 in Hun. lia.
Qed.

(** With two switch groups or more that hold each node once, at least one
    node requested for workload A, a count for workload B that is not
    negative, and no more nodes requested than the grouping holds, the
    compact strategy returns lists of exactly the requested lengths. *)
Theorem compact_meets_quotas (set_iter : gset string -> list string)
    (switch_to_nodes : odict (list string))
    (node_to_switch : gmap string string) (hierarchy : switch_hierarchy)
    (requested_a requested_b : Z) :
  enumerates set_iter ->
  proper_groups switch_to_nodes -> 2 <= Py.len switch_to_nodes ->
  NoDup (Dict.all_values switch_to_nodes) ->
  1 <= requested_a -> 0 <= requested_b ->
  requested_a + requested_b <= Py.len (Dict.all_values switch_to_nodes) ->
  let split :=
    compact_split_nodes_between_workloads set_iter switch_to_nodes
      node_to_switch hierarchy requested_a requested_b in
  Py.len split.1 = requested_a /\ Py.len split.2 = requested_b.
Proof. apply compact_exact_lengths. Qed.

Lemma compact_meets_quotas_witness :
  let split :=
    compact_split_nodes_between_workloads iter_forward
      [("s1", ["n3"; "n1"; "n2"]); ("s2", ["m1"; "m2"])] ∅
      {| hier_parents := None; hier_children := None |} 2 3 in
  Py.len split.1 = 2 /\ Py.len split.2 = 3.
Proof.
  apply (compact_meets_quotas iter_forward
           [("s1", ["n3"; "n1"; "n2"]); ("s2", ["m1"; "m2"])] ∅
           {| hier_parents := None; hier_children := None |} 2 3).
  - apply enumerates_forward.
  - split; [unfold Dict.wf; decide_closed|]. by repeat constructor.
  - by vm_compute.
  - unfold Dict.all_values. decide_closed.
  - lia.
  - lia.
  - by vm_compute.
Defined.

(** With the compact strategy, the script succeeds whenever the allocation
    names each node once, the known nodes fall under two switches or more,
    at least one node is requested for workload A, the count for workload B
    is not negative, and the known nodes are enough for both counts. *)
Theorem process_files_compact_succeeds
    (set_iter : gset string -> list string) (round_ratio : Z -> Z -> Z -> Z)
    (allocated : list string) (node_to_switch : gmap string string)
    (hierarchy : switch_hierarchy) (strategy : string)
    (requested_a requested_b : Z) :
  enumerates set_iter -> NoDup allocated -> strategy <> "even" ->
  2 <= Py.len (group_nodes_by_switch allocated node_to_switch) ->
  1 <= requested_a -> 0 <= requested_b ->
  requested_a + requested_b
  <= Py.len (filter (fun node => known_to_topology node_to_switch node = true)
               allocated) ->
  exists A B,
    process_files set_iter round_ratio allocated node_to_switch hierarchy
      strategy (Some requested_a) (Some requested_b) = Ok (A, B).
Proof.
  intros Hiter Hnd Hstrat Hgroups Ha Hb Hsum.
  destruct (well_grouped_group node_to_switch allocated) as [Hwf Hall].
  assert (proper_groups (group_nodes_by_switch allocated node_to_switch)) as Hp.
  { split; [done|]. eapply Forall_impl; [done|]. simpl. tauto. }
  destruct (compact_exact_lengths set_iter _ node_to_switch hierarchy
              requested_a requested_b Hiter Hp Hgroups
              (group_NoDup allocated node_to_switch Hnd) Ha Hb) as [HA HB].
  { unfold Py.len in *. by rewrite (group_nodes_perm node_to_switch allocated). }
  unfold process_files.
  destruct (Z.ltb_spec (Py.len allocated) (requested_a + requested_b)) as [Hlt|_].
  { pose proof (length_filter
                  (fun node => known_to_topology node_to_switch node = true)
                  allocated).
    unfold Py.len in *. lia. }
  rewrite decide_False by done. simpl.
  destruct (compact_split_nodes_between_workloads _ _ _ _ _ _) as [A B].
  simpl in HA, HB. rewrite HA, HB, !Z.eqb_refl. simpl. by exists A, B.
Qed.

Lemma process_files_compact_succeeds_witness :
  exists A B,
    process_files iter_forward round_half_even ["n1"; "x9"; "n2"; "n3"]
      (<["n1" := "s1"]> (<["n2" := "s2"]> (<["n3" := "s2"]> ∅)))
      {| hier_parents := None; hier_children := None |}
      "compact" (Some 1) (Some 2) = Ok (A, B).
Proof.
  apply process_files_compact_succeeds.
  - apply enumerates_forward.
  - decide_closed.
  - discriminate.
  - by vm_compute.
  - lia.
  - lia.
  - by vm_compute.
Defined.

(** ** The even strategy and the count of workload A *)

Section even_quota.
Variable round_ratio : Z -> Z -> Z -> Z.
Hypothesis round_ok : rounds_within round_ratio.
Variable d : odict (list string).
Variables a b : Z.
Hypothesis a_nonneg : 0 <= a.
Hypothesis b_pos : 0 < b.

Lemma split_counts_a_bound total_a total_b num_nodes a_count b_count :
  0 <= num_nodes ->
  split_counts round_ratio a b total_a total_b num_nodes
  = Ok (a_count, b_count) ->
  0 <= a_count <= num_nodes /\ a_count <= Z.max 0 (a - total_a).
Proof using round_ok a_nonneg b_pos.
  intros Hn. unfold split_counts, proportional.
  set (la := Z.max 0 (a - total_a)). set (lb := Z.max 0 (b - total_b)).
  assert (0 <= la) by lia. assert (0 <= lb) by lia.
  destruct (Z.leb_spec num_nodes (la + lb)).
  - destruct (Z.eqb_spec la 0); [intros [= <- <-]; lia|].
    destruct (Z.eqb_spec lb 0); [intros [= <- <-]; lia|].
    destruct (Z.eqb_spec (la + lb) 0); [lia|]. simpl.
    pose proof (round_ok num_nodes la (la + lb) Hn ltac:(lia)).
    intros [= <- <-]. lia.
  - destruct (Z.eqb_spec a 0); [intros [= <- <-]; lia|].
    destruct (Z.eqb_spec b 0); [lia|].
    destruct (Z.eqb_spec (a + b) 0); [lia|]. simpl.
    pose proof (round_ok num_nodes a (a + b) Hn ltac:(lia)).
    intros [= <- <-]. lia.
Qed.

(** The loop counts in [total_a] the nodes it has given to workload A, and
    never gives more than requested. *)
Lemma even_loop_total_a switches st st' :
  even_loop round_ratio d a b switches st = Ok st' ->
  Py.len (ev_workload_a st) = ev_total_a st -> ev_total_a st <= a ->
  Py.len (ev_workload_a st') = ev_total_a st' /\ ev_total_a st' <= a.
Proof using round_ok a_nonneg b_pos.
  revert st. induction switches as [|switch rest IH]; intros st; simpl.
  - intros [= ->]. auto.
  - destruct (_ && _); [intros [= ->]; auto|].
    destruct (split_counts _ _ _ _ _ _) as [[a_count b_count]|e] eqn:Hc;
      simpl; [|done].
    intros Hloop Hlen Hle.
    apply split_counts_a_bound in Hc as [Hac Hmax]; [|apply len_nonneg].
    apply (IH _ Hloop); simpl.
    + rewrite len_app, len_slice_to; lia.
    + lia.
Qed.

End even_quota.

(** With a count for workload A that is not negative and at least one node
    requested for workload B, the even strategy never returns more nodes
    in workload A than requested. *)
Theorem even_a_within_quota (set_iter : gset string -> list string)
    (round_ratio : Z -> Z -> Z -> Z) (switch_to_nodes : odict (list string))
    (requested_a requested_b : Z) (A B : list string) :
  rounds_within round_ratio -> 0 <= requested_a -> 0 < requested_b ->
  evenly_split_nodes_between_workloads set_iter round_ratio
    switch_to_nodes requested_a requested_b = Ok (A, B) ->
  Py.len A <= requested_a.
Proof.
  intros Hround Ha Hb. unfold evenly_split_nodes_between_workloads.
  destruct (Py.len switch_to_nodes =? 1).
  { intros [= <- <-]. unfold _handle_single_switch_case. simpl.
    by apply len_slice_to_le. }
  cbv zeta.
  destruct (even_loop _ _ _ _ _ _) as [st|e] eqn:Hloop; simpl; [|done].
  intros [= <- <-].
  destruct (even_loop_total_a round_ratio Hround switch_to_nodes
              requested_a requested_b Ha Hb _ _ _ Hloop) as [H1 H2];
    simpl; [done | done |]. lia.
Qed.

Lemma even_a_within_quota_witness : Py.len ["n1"; "n4"] <= 2.
Proof.
  apply (even_a_within_quota iter_forward round_half_even
           [("s1", ["n3"; "n2"; "n1"]); ("s2", ["n4"; "n5"])] 2 3
           ["n1"; "n4"] ["n2"; "n3"; "n5"]).
  - apply round_half_even_within.
  - lia.
  - lia.
  - reflexivity.
Defined.
